(** * PcmHacks kernel, [Kernels/common.c]: the VPW bus core

    A shallow embedding of the transmit engine, the receive decoder, the
    staging buffer and the checksum routines of [common.c], with the
    properties stated about them.

    Conventions.
    - C [int] values are [Z]; a byte ([char], [unsigned char]) is a [Z]
      holding its 8-bit pattern, 0..255.
    - [MessageBuffer] is the global array of [MessageBufferSize] bytes: a
      function on indices, every access checked against the array bounds.
    - The memory-mapped registers are volatile.  Every access is recorded as
      an event; what a read of [DLC_Status] or [DLC_Receive_FIFO] returns is
      decided by the device, modelled as two input tapes.
    - An access outside an array is undefined behaviour in C; the embedding
      stops there with a [Fault]. *)

From Stdlib Require Import ZArith List Lia Bool.
Import ListNotations.
Open Scope Z_scope.

(** ** Registers and events *)

Inductive Reg : Type :=
| DLC_Configuration
| DLC_InterruptConfiguration
| DLC_Transmit_Command
| DLC_Transmit_FIFO
| DLC_Status
| DLC_Receive_FIFO
| Watchdog1
| Watchdog2.

Inductive event : Type :=
| Rd (r : Reg) (v : Z)
| Wr (r : Reg) (v : Z)
| Nop.

(** ** The machine state *)

Definition MessageBufferSize : Z := 1024.

Record World : Type := mkWorld {
  MessageBuffer : Z -> Z;       (* the staging buffer, indices 0..1023 *)
  Watchdog2_cell : Z;           (* last value of the Watchdog2 register *)
  status_tape : nat -> Z;       (* what successive reads of DLC_Status give *)
  status_pos : nat;
  rx_tape : nat -> Z;           (* what successive reads of DLC_Receive_FIFO give *)
  rx_pos : nat;
  events : list event           (* register accesses, newest first *)
}.

Definition to_byte (v : Z) : Z := Z.land v 0xFF.

Definition upd (f : Z -> Z) (i v : Z) : Z -> Z :=
  fun j => if j =? i then v else f j.

(** ** Faults and the state-and-error monad *)

Inductive fault : Type :=
| OutOfBounds (index : Z)     (* an array accessed at [index], outside it *)
| OutOfFuel.                  (* an unbounded [while] did not stop in the fuel given *)

Inductive Result (A : Type) : Type :=
| Ok (a : A) (w : World)
| Fault (e : fault).
Arguments Ok {A} a w.
Arguments Fault {A} e.

Definition M (A : Type) : Type := World -> Result A.

Definition ret {A} (a : A) : M A := fun w => Ok a w.

Definition bind {A B} (m : M A) (f : A -> M B) : M B :=
  fun w => match m w with
           | Ok a w' => f a w'
           | Fault e => Fault e
           end.

Definition fail {A} (e : fault) : M A := fun _ => Fault e.

Declare Scope m_scope.
Delimit Scope m_scope with m.
Notation "x <- m ;; k" := (bind m (fun x => k))
  (at level 61, m at next level, right associativity) : m_scope.
Notation "m ;; k" := (bind m (fun _ => k))
  (at level 61, right associativity) : m_scope.
Open Scope m_scope.

(** ** Volatile register accesses *)

Definition log (e : event) (w : World) : World :=
  mkWorld (MessageBuffer w) (Watchdog2_cell w) (status_tape w) (status_pos w)
          (rx_tape w) (rx_pos w) (e :: events w).

(** [*reg = v] *)
Definition write_reg (r : Reg) (v : Z) : M unit :=
  fun w =>
    let w' := log (Wr r v) w in
    match r with
    | Watchdog2 =>
        Ok tt (mkWorld (MessageBuffer w') (to_byte v) (status_tape w')
                 (status_pos w') (rx_tape w') (rx_pos w') (events w'))
    | _ => Ok tt w'
    end.

(** [*DLC_Status] *)
Definition read_DLC_Status : M Z :=
  fun w =>
    let v := to_byte (status_tape w (status_pos w)) in
    Ok v (mkWorld (MessageBuffer w) (Watchdog2_cell w) (status_tape w)
            (S (status_pos w)) (rx_tape w) (rx_pos w)
            (Rd DLC_Status v :: events w)).

(** [*DLC_Receive_FIFO] *)
Definition read_DLC_Receive_FIFO : M Z :=
  fun w =>
    let v := to_byte (rx_tape w (rx_pos w)) in
    Ok v (mkWorld (MessageBuffer w) (Watchdog2_cell w) (status_tape w)
            (status_pos w) (rx_tape w) (S (rx_pos w))
            (Rd DLC_Receive_FIFO v :: events w)).

(** [*Watchdog2] *)
Definition read_Watchdog2 : M Z :=
  fun w => Ok (Watchdog2_cell w) (log (Rd Watchdog2 (Watchdog2_cell w)) w).

(** ** Arrays and pointers *)

(** [MessageBuffer[i]] as an rvalue. *)
Definition load_MessageBuffer (i : Z) : M Z :=
  fun w =>
    if (0 <=? i) && (i <? MessageBufferSize)
    then Ok (MessageBuffer w i) w
    else Fault (OutOfBounds i).

(** [MessageBuffer[i] = v] *)
Definition store_MessageBuffer (i v : Z) : M unit :=
  fun w =>
    if (0 <=? i) && (i <? MessageBufferSize)
    then Ok tt (mkWorld (upd (MessageBuffer w) i v) (Watchdog2_cell w)
                  (status_tape w) (status_pos w) (rx_tape w) (rx_pos w)
                  (events w))
    else Fault (OutOfBounds i).

(** A [char*] argument: it points into the staging buffer
    ([MessageBuffer + off]) or into another array, which the functions of
    this file only read and which is given by its contents. *)
Inductive ptr : Type :=
| InMessageBuffer (off : Z)
| InArray (a : list Z) (off : Z).

Definition array_get (a : list Z) (i : Z) : option Z :=
  if 0 <=? i then nth_error a (Z.to_nat i) else None.

(** [a[i] = v] on a local array. *)
Definition array_set (a : list Z) (i v : Z) : option (list Z) :=
  if (0 <=? i) && (i <? Z.of_nat (length a))
  then Some (firstn (Z.to_nat i) a ++ v :: skipn (S (Z.to_nat i)) a)
  else None.

(** [start[i]] *)
Definition load (start : ptr) (i : Z) : M Z :=
  match start with
  | InMessageBuffer off => load_MessageBuffer (off + i)
  | InArray a off =>
      match array_get a (off + i) with
      | Some v => ret v
      | None => fail (OutOfBounds (off + i))
      end
  end.

(** ** Loops *)

(** [for (index = lo; index < hi; index++) acc = body(index, acc);] *)
Fixpoint for_loop {A} (n : nat) (index : Z) (acc : A) (body : Z -> A -> M A)
  : M A :=
  match n with
  | O => ret acc
  | S k => acc' <- body index acc ;; for_loop k (index + 1) acc' body
  end.

Definition for_range {A} (lo hi : Z) (acc : A) (body : Z -> A -> M A) : M A :=
  for_loop (Z.to_nat (hi - lo)) lo acc body.

(** [for (index = n - 1; index >= 0; index--) body(index);] *)
Fixpoint for_down (n : nat) (body : Z -> M unit) : M unit :=
  match n with
  | O => ret tt
  | S k => body (Z.of_nat k) ;; for_down k body
  end.

(** ** Watchdog and delays *)

Definition ScratchWatchdog : M unit :=
  write_reg Watchdog1 0x55 ;;
  write_reg Watchdog1 0xAA ;;
  v <- read_Watchdog2 ;;
  write_reg Watchdog2 (Z.land v 0x7F) ;;
  v <- read_Watchdog2 ;;
  write_reg Watchdog2 (Z.lor v 0x80).

Definition nop : M unit := fun w => Ok tt (log Nop w).

Definition WasteTime : M unit := nop ;; nop ;; nop ;; nop.

(** ** The staging buffer *)

Definition ClearMessageBuffer : M unit :=
  for_range 0 MessageBufferSize tt
    (fun index _ => store_MessageBuffer index 0).

Definition CopyToMessageBuffer (start : ptr) (length offset : Z) : M unit :=
  for_down (Z.to_nat length)
    (fun index =>
       v <- load start index ;;
       store_MessageBuffer (index + offset) v ;;
       if Z.rem index 100 =? 0 then ScratchWatchdog else ret tt).

(** ** Segments *)

(** [enum Segment]: bit flags, tested with [&]. *)
Definition Invalid : Z := 0.
Definition Start : Z := 1.
Definition Middle : Z := 2.
Definition End : Z := 4.
Definition Complete : Z := Z.lor Start End.

(** [(segment & flag) != 0] *)
Definition has_flag (segment flag : Z) : bool :=
  negb (Z.land segment flag =? 0).

(** ** The transmit engine *)

(** [while (cond) body;] on the variables [a], the condition being an
    expression that may read a register.  The fuel bounds the number of
    iterations the model follows. *)
Fixpoint while_loop {A} (fuel : nat) (cond : A -> M bool) (body : A -> M A)
  (a : A) : M A :=
  match fuel with
  | O => fail OutOfFuel
  | S k =>
      c <- cond a ;;
      if c : bool then a' <- body a ;; while_loop k cond body a' else ret a
  end.

(** The back-off after each byte of [WriteMessage]; the variables are
    [(status, loopCount)].  [loopCount < 250] stops it within 250 rounds, so
    251 tests of the condition are enough. *)
Definition backoff (status : Z) : M (Z * Z) :=
  while_loop 251
    (fun '(status, loopCount) =>
       ret (((status =? 0x02) || (status =? 0x03)) && (loopCount <? 250)))
    (fun '(status, loopCount) =>
       let loopCount := loopCount + 1 in
       for_range 0 50 tt (fun _ _ => ScratchWatchdog ;; WasteTime) ;;
       ScratchWatchdog ;;
       s <- read_DLC_Status ;;
       ret (Z.land s 0x03, loopCount))
    (status, 0).

(** The wait for the frame to be flushed, at the end of [WriteMessage]. *)
Definition flush_wait (status : Z) : M (Z * Z) :=
  while_loop 251
    (fun '(status, loopCount) =>
       ret (negb (status =? 0) && (loopCount <? 250)))
    (fun '(status, loopCount) =>
       let loopCount := loopCount + 1 in
       for_range 0 25 tt (fun _ _ => ScratchWatchdog ;; WasteTime) ;;
       ScratchWatchdog ;;
       s <- read_DLC_Status ;;
       ret (Z.land s 0x03, loopCount))
    (status, 0).

(** The body of the loop that sends the message: one byte, then the
    back-off while the transmit buffer is almost full or full. *)
Definition send_byte (start : ptr) (index : Z) : M unit :=
  v <- load start index ;;
  write_reg DLC_Transmit_FIFO v ;;
  ScratchWatchdog ;;
  s <- read_DLC_Status ;;
  backoff (Z.land s 0x03) ;;
  ret tt.

Definition WriteMessage (start : ptr) (length segment : Z) : M unit :=
  ScratchWatchdog ;;
  (if has_flag segment Start
   then write_reg DLC_Transmit_Command 0x14
   else ret tt) ;;
  let lastIndex := if has_flag segment End then length - 1 else length in
  for_range 0 lastIndex tt (fun index _ => send_byte start index) ;;
  if has_flag segment End
  then
    write_reg DLC_Transmit_Command 0x0C ;;
    v <- load start (length - 1) ;;
    write_reg DLC_Transmit_FIFO v ;;
    WasteTime ;;
    write_reg DLC_Transmit_Command 0x03 ;;
    write_reg DLC_Transmit_FIFO 0x00 ;;
    s <- read_DLC_Status ;;
    flush_wait (Z.land s 0x03) ;;
    ClearMessageBuffer
  else ret tt.

(** ** The receive decoder *)

(** What one turn of a polling loop does: go on with the loop variables
    [s], or leave the function with [r]. *)
Inductive flow (S R : Type) : Type :=
| Next (s : S)
| Return (r : R).
Arguments Next {S R} s.
Arguments Return {S R} r.

(** [while ( *DLC_Status & 0xE0 == 0x60) { char unused = *DLC_Receive_FIFO; }]
    In C, [==] binds tighter than [&]: the condition is
    [*DLC_Status & (0xE0 == 0x60)]. *)
Definition drain_overflow (fuel : nat) : M unit :=
  while_loop fuel
    (fun _ =>
       s <- read_DLC_Status ;;
       ret (negb (Z.land s (Z.b2z (0xE0 =? 0x60)) =? 0)))
    (fun _ => _ <- read_DLC_Receive_FIFO ;; ret tt)
    tt.

(** The [switch (status)] of [ReadMessage], on the variables [length] and
    [*completionCode].  A [Return] carries the value returned,
    [*completionCode] and [*readState]; [Next], reached by [break], the
    variables for the next turn. *)
Definition ReadMessage_switch (fuel : nat) (length completionCode status : Z)
  : M (flow (Z * Z) (Z * Z * Z)) :=
  match status with
  | 0 =>
      WasteTime ;;
      ret (Next (length, completionCode))
  | 1 | 2 | 4 =>
      v <- read_DLC_Receive_FIFO ;;
      store_MessageBuffer length v ;;
      ret (Next (length + 1, completionCode))
  | 5 | 6 | 7 =>
      completionCode <- read_DLC_Receive_FIFO ;;
      write_reg DLC_Transmit_Command 0x02 ;;
      if length =? 0
      then ret (Next (length, completionCode))
      else if Z.land completionCode 0x30 =? 0x30
           then ret (Return (0, completionCode, 2))
           else ret (Return (length, completionCode, 1))
  | 3 =>
      drain_overflow fuel ;;
      ret (Return (0, completionCode, 0x0B))
  | _ => ret (Next (length, completionCode))
  end.

(** The body of the polling loop of [ReadMessage]. *)
Definition ReadMessage_body (fuel : nat) (length completionCode : Z)
  : M (flow (Z * Z) (Z * Z * Z)) :=
  if length =? 25
  then ret (Return (length, completionCode, 0xEE))
  else
    s <- read_DLC_Status ;;
    let status := Z.shiftr (Z.land s 0xE0) 5 in
    ReadMessage_switch fuel length completionCode status.

(** [for (iterations = ...; iterations < 30 * 1000; iterations++)], with
    [n] turns left; [ScratchWatchdog] closes each turn that goes on. *)
Fixpoint ReadMessage_loop (fuel : nat) (n : nat) (length completionCode : Z)
  : M (flow (Z * Z) (Z * Z * Z)) :=
  match n with
  | O => ret (Next (length, completionCode))
  | S k =>
      r <- ReadMessage_body fuel length completionCode ;;
      match r with
      | Next (length, completionCode) =>
          ScratchWatchdog ;;
          ReadMessage_loop fuel k length completionCode
      | Return x => ret (Return x)
      end
  end.

(** [ReadMessage(&completionCode, &readState)]: the result is the value
    returned, [completionCode] and [readState].  [completionCode] is what the
    caller's variable holds at the call; [fuel] is for the overflow loop. *)
Definition ReadMessage (fuel : nat) (completionCode : Z) : M (Z * Z * Z) :=
  ScratchWatchdog ;;
  r <- ReadMessage_loop fuel (Z.to_nat (30 * 1000)) 0 completionCode ;;
  match r with
  | Next (length, completionCode) => ret (length, completionCode, 0x0A)
  | Return x => ret x
  end.

Inductive ReadType : Type :=
| Silence
| MessageData
| CompletionCode
| Overflow.

(** The [switch ( *status)] of [TryReadNextByte]; [status] is not declared
    in the function and is taken as a local variable.  A [Return] carries
    the value returned, [*data], [*completionCode] and [*type]. *)
Definition TryReadNextByte_switch (fuel : nat) (data completionCode status : Z)
  : M (flow unit (Z * Z * Z * ReadType)) :=
  match status with
  | 0 =>
      WasteTime ;;
      ret (Next tt)
  | 1 | 2 | 4 =>
      data <- read_DLC_Receive_FIFO ;;
      ret (Return (1, data, completionCode, MessageData))
  | 5 | 6 | 7 =>
      completionCode <- read_DLC_Receive_FIFO ;;
      write_reg DLC_Transmit_Command 0x02 ;;
      ret (Return (1, data, completionCode, CompletionCode))
  | 3 =>
      drain_overflow fuel ;;
      ret (Return (0, 0, 0, Overflow))
  | _ => ret (Next tt)
  end.

Definition TryReadNextByte_body (fuel : nat) (data completionCode : Z)
  : M (flow unit (Z * Z * Z * ReadType)) :=
  s <- read_DLC_Status ;;
  let status := Z.shiftr (Z.land s 0xE0) 5 in
  TryReadNextByte_switch fuel data completionCode status.

Fixpoint TryReadNextByte_loop (fuel : nat) (n : nat) (data completionCode : Z)
  : M (flow unit (Z * Z * Z * ReadType)) :=
  match n with
  | O => ret (Next tt)
  | S k =>
      r <- TryReadNextByte_body fuel data completionCode ;;
      match r with
      | Next _ =>
          ScratchWatchdog ;;
          TryReadNextByte_loop fuel k data completionCode
      | Return x => ret (Return x)
      end
  end.

Definition TryReadNextByte (fuel : nat) (data completionCode : Z)
  : M (Z * Z * Z * ReadType) :=
  r <- TryReadNextByte_loop fuel (Z.to_nat 1000) data completionCode ;;
  match r with
  | Next _ => ret (0, 0, 0, Silence)
  | Return x => ret x
  end.

(** ** Tool-present message *)

(** [a[i] = v] on a local array, as a step of the program. *)
Definition set_local (a : list Z) (i v : Z) : M (list Z) :=
  match array_set a i v with
  | Some a' => ret a'
  | None => fail (OutOfBounds i)
  end.

Definition SendToolPresent (b1 b2 b3 b4 : Z) : M unit :=
  let toolPresent := [0x8C; 0xFE; 0xF0; 0x3F; 0x00; 0x00; 0x00] in
  toolPresent <- set_local toolPresent 4 b1 ;;
  toolPresent <- set_local toolPresent 5 b2 ;;
  toolPresent <- set_local toolPresent 6 b3 ;;
  toolPresent <- set_local toolPresent 7 b4 ;;
  WriteMessage (InArray toolPresent 0) 8 Complete ;;
  ClearMessageBuffer.

(** ** Checksums *)

(** Conversion to [unsigned short]. *)
Definition to_ushort (v : Z) : Z := v mod 2 ^ 16.

Definition StartChecksum : M Z :=
  for_range 4 10 0
    (fun index checksum =>
       v <- load_MessageBuffer index ;;
       ret (to_ushort (checksum + v))).

(** The body of the loop of [AddReadPayloadChecksum]. *)
Definition add_payload_byte (start : ptr) (index checksum : Z) : M Z :=
  v <- load start index ;;
  let value := to_byte v in
  let checksum := to_ushort (checksum + value) in
  (if Z.rem index 100 =? 0 then ScratchWatchdog else ret tt) ;;
  ret checksum.

Definition AddReadPayloadChecksum (start : ptr) (length : Z) : M Z :=
  ScratchWatchdog ;;
  checksum <- for_range 0 length 0 (add_payload_byte start) ;;
  ScratchWatchdog ;;
  ret checksum.

Definition SetBlockChecksum (length checksum : Z) : M unit :=
  store_MessageBuffer (10 + length)
    (to_byte (Z.shiftr (Z.land checksum 0xFF00) 8)) ;;
  store_MessageBuffer (11 + length) (to_byte (Z.land checksum 0xFF)).

(** ** What can be observed of a run *)

(** Writes to the two transmit ports of the line controller, oldest first. *)
Definition is_port_write (e : event) : bool :=
  match e with
  | Wr DLC_Transmit_Command _ | Wr DLC_Transmit_FIFO _ => true
  | _ => false
  end.

Definition port_writes (w : World) : list event :=
  rev (filter is_port_write (events w)).

(** Writes to the watchdog registers: what servicing the watchdog is. *)
Definition is_watchdog_write (e : event) : bool :=
  match e with
  | Wr Watchdog1 _ | Wr Watchdog2 _ => true
  | _ => false
  end.

Definition watchdog_writes (w : World) : list event :=
  rev (filter is_watchdog_write (events w)).

(** Reads of the receive port. *)
Definition is_rx_read (e : event) : bool :=
  match e with
  | Rd DLC_Receive_FIFO _ => true
  | _ => false
  end.

Definition rx_reads (w : World) : list event :=
  rev (filter is_rx_read (events w)).

(** The 3-bit receive-status field and the 2-bit transmit-fullness field of
    the [n]-th value the status register gives. *)
Definition rx_status_at (w : World) (n : nat) : Z :=
  Z.shiftr (Z.land (to_byte (status_tape w n)) 0xE0) 5.

Definition tx_fullness_at (w : World) (n : nat) : Z :=
  Z.land (to_byte (status_tape w n)) 0x03.

(** The 1024 bytes of a staging buffer, in order. *)
Definition contents (buf : Z -> Z) : list Z :=
  map (fun i => buf (Z.of_nat i)) (seq 0 (Z.to_nat MessageBufferSize)).

Definition buffer_contents (w : World) : list Z := contents (MessageBuffer w).

(** What [WriteMessage], a [void] function, leaves for its caller: the
    staging buffer and the bytes that went to the line controller, or the
    fault. *)
Definition caller_view (r : Result unit) : list Z * list event + fault :=
  match r with
  | Ok _ w => inl (buffer_contents w, port_writes w)
  | Fault e => inr e
  end.

(** The back-off after a byte written in state [w] uses up its budget: the
    fullness field reads 2 or 3 at the check after the byte and at each of
    the 250 checks that follow. *)
Definition backoff_exhausted (w : World) : Prop :=
  forall k : nat, (k <= 250)%nat ->
    tx_fullness_at w (status_pos w + k) = 2 \/
    tx_fullness_at w (status_pos w + k) = 3.

(** [start[0 .. length-1]] can be read in [w]. *)
Definition readable (w : World) (start : ptr) (length : Z) : Prop :=
  forall i, 0 <= i < length -> exists v, load start i w = Ok v w.

(** [CopyToMessageBuffer(start, length, offset)] called in [w] ends with
    [MessageBuffer[offset + i]] holding what [start[i]] held at the call. *)
Definition copy_reproduces (w : World) (start : ptr) (length offset : Z)
  : Prop :=
  exists w',
    CopyToMessageBuffer start length offset w = Ok tt w' /\
    forall i, 0 <= i < length ->
      load start i w = Ok (MessageBuffer w' (offset + i)) w.

(** The source does not begin inside the buffer after the destination while
    running into it: it is another array, or it begins at or before the
    destination (a move to a later offset), or it lies past its end. *)
Definition forward_or_apart (start : ptr) (length offset : Z) : Prop :=
  match start with
  | InArray _ _ => True
  | InMessageBuffer s => s <= offset \/ offset + length <= s
  end.

Definition is_byte (v : Z) : Prop := 0 <= v < 256.

(** ** Sample states *)

(** A state in which no register was accessed yet: the staging buffer holds
    [buf], the [n]-th read of the status register will give [status n] and
    the [n]-th read of the receive port [rx n]. *)
Definition world_of (buf : Z -> Z) (status rx : nat -> Z) : World :=
  mkWorld buf 0 status 0 rx 0 [].

(** Nothing on the bus, an empty buffer. *)
Definition idle : World := world_of (fun _ => 0) (fun _ => 0) (fun _ => 0).

(** The buffer holds the low byte of each index. *)
Definition ramp : World :=
  world_of (fun i => i mod 256) (fun _ => 0) (fun _ => 0).

(** The line controller reports its transmit buffer full at every check. *)
Definition tx_full : World :=
  world_of (fun _ => 0) (fun _ => 0x03) (fun _ => 0).

(** The line controller reports receive overflow at every check, with the
    bytes of [rx] waiting in its receive buffer. *)
Definition rx_overflow (rx : nat -> Z) : World :=
  world_of (fun _ => 0) (fun _ => 0x60) rx.

(** Three data bytes arrive, then the bus stays silent. *)
Definition three_then_silence : World :=
  world_of (fun _ => 0)
    (fun n => if (n <? 3)%nat then 0x20 else 0)
    (fun n => 0x11 * Z.of_nat (S n)).

(** ** Total-correctness assertions *)

(** [post m w Q]: run in [w], [m] ends without a fault, with a result and a
    state that satisfy [Q]. *)
Definition post {A} (m : M A) (w : World) (Q : A -> World -> Prop) : Prop :=
  match m w with
  | Ok a w' => Q a w'
  | Fault _ => False
  end.

(** A step that leaves the staging buffer, the bytes sent to the transmit
    ports and the read positions of the receive port as they are. *)
Record silent (w w' : World) : Prop := mkSilent {
  silent_buffer : MessageBuffer w' = MessageBuffer w;
  silent_ports : port_writes w' = port_writes w;
  silent_rx : rx_pos w' = rx_pos w;
  silent_rx_tape : rx_tape w' = rx_tape w;
  silent_status_tape : status_tape w' = status_tape w
}.

(** ** Invariants of the loops *)

(** A step that touches nothing but the staging buffer. *)
Definition buffer_only (w w' : World) : Prop :=
  events w' = events w /\ Watchdog2_cell w' = Watchdog2_cell w /\
  status_tape w' = status_tape w /\ status_pos w' = status_pos w /\
  rx_tape w' = rx_tape w /\ rx_pos w' = rx_pos w.

(** The state reached once the indices [k .. length-1] have been copied. *)
Definition copied (w : World) (start : ptr) (length offset : Z) (k : nat)
  (w' : World) : Prop :=
  (forall i, Z.of_nat k <= i < length ->
     load start i w = Ok (MessageBuffer w' (offset + i)) w) /\
  (forall j, j < offset + Z.of_nat k -> MessageBuffer w' j = MessageBuffer w j) /\
  (forall j, offset + length <= j -> MessageBuffer w' j = MessageBuffer w j).

(** A step that leaves the staging buffer as it is and sends [l] to the
    transmit ports. *)
Definition emits (l : list event) (w w' : World) : Prop :=
  MessageBuffer w' = MessageBuffer w /\ port_writes w' = port_writes w ++ l.

(** ** What [WriteMessage] leaves, computed from its arguments *)

(** [start[i]] when the staging buffer holds [buf]. *)
Definition peek (buf : Z -> Z) (start : ptr) (i : Z) : Z + fault :=
  match start with
  | InMessageBuffer off =>
      if (0 <=? off + i) && (off + i <? MessageBufferSize)
      then inl (buf (off + i))
      else inr (OutOfBounds (off + i))
  | InArray a off =>
      match array_get a (off + i) with
      | Some v => inl v
      | None => inr (OutOfBounds (off + i))
      end
  end.

(** The bytes [start[index .. index+n-1]], or the fault of the first read
    that fails. *)
Fixpoint read_range (buf : Z -> Z) (start : ptr) (n : nat) (index : Z)
  : list Z + fault :=
  match n with
  | O => inl []
  | S k =>
      match peek buf start index with
      | inl v =>
          match read_range buf start k (index + 1) with
          | inl l => inl (v :: l)
          | inr e => inr e
          end
      | inr e => inr e
      end
  end.

Definition frame_head (segment : Z) : list event :=
  if has_flag segment Start then [Wr DLC_Transmit_Command 0x14] else [].

Definition frame_tail (v : Z) : list event :=
  [Wr DLC_Transmit_Command 0x0C; Wr DLC_Transmit_FIFO v;
   Wr DLC_Transmit_Command 0x03; Wr DLC_Transmit_FIFO 0x00].

(** The staging buffer and the port writes after
    [WriteMessage(start, length, segment)], from the buffer [buf] and the
    port writes [sent] at the call alone: no status value enters. *)
Definition WriteMessage_view (start : ptr) (length segment : Z)
  (buf : Z -> Z) (sent : list event) : list Z * list event + fault :=
  let lastIndex := if has_flag segment End then length - 1 else length in
  match read_range buf start (Z.to_nat (lastIndex - 0)) 0 with
  | inr e => inr e
  | inl body =>
      let sent :=
        sent ++ frame_head segment ++ map (Wr DLC_Transmit_FIFO) body in
      if has_flag segment End
      then
        match peek buf start (length - 1) with
        | inl v =>
            inl (repeat 0 (Z.to_nat MessageBufferSize), sent ++ frame_tail v)
        | inr e => inr e
        end
      else inl (contents buf, sent)
  end.

(** [outcome m w Q F]: run in [w], [m] ends with a result and a state that
    satisfy [Q], or with a fault that satisfies [F]. *)
Definition outcome {A} (m : M A) (w : World) (Q : A -> World -> Prop)
  (F : fault -> Prop) : Prop :=
  match m w with
  | Ok a w' => Q a w'
  | Fault e => F e
  end.

(** The frame-start command. *)
Definition is_frame_start (e : event) : bool :=
  match e with
  | Wr DLC_Transmit_Command 0x14 => true
  | _ => false
  end.

(** The polling loop ran out of turns: it did not return from the
    function. *)
Definition falls_through {S R} (r : Result (flow S R)) : Prop :=
  match r with
  | Ok (Next _) _ => True
  | _ => False
  end.

(** The poll that [ReadMessage] makes on a completion code: the status, the
    code from the receive port, the acknowledge command. *)
Definition take_completion_code : M Z :=
  _ <- read_DLC_Status ;;
  code <- read_DLC_Receive_FIFO ;;
  write_reg DLC_Transmit_Command 0x02 ;;
  ret code.

(** The line controller reports a completion code at every check, and the
    receive port gives 0x30. *)
Definition completion_only : World :=
  world_of (fun _ => 0) (fun _ => 0xE0) (fun _ => 0x30).

(** The sum of the bytes of a range, as an integer. *)
Definition sum_bytes (l : list Z) : Z := fold_right Z.add 0 l.


(** ** Delays and the reboot notification *)

(** [LongSleepWithWatchdog]: 10,000 turns, each a watchdog service and ten
    calls of [WasteTime].  (The function is declared [int] and returns no
    value; no caller uses one.) *)
Definition LongSleepWithWatchdog : M unit :=
  for_range 0 (10 * 1000) tt
    (fun _ _ =>
       ScratchWatchdog ;;
       for_range 0 10 tt (fun _ _ => WasteTime)).

(** The statements of [Reboot] before its closing [for (;;);]: the frame is
    staged in [MessageBuffer] and sent from there. *)
Definition Reboot_notify (value : Z) : M unit :=
  LongSleepWithWatchdog ;;
  store_MessageBuffer 0 0x6C ;;
  store_MessageBuffer 1 0xF0 ;;
  store_MessageBuffer 2 0x10 ;;
  store_MessageBuffer 3 0x60 ;;
  store_MessageBuffer 4 (to_byte (Z.shiftr (Z.land value 0xFF000000) 24)) ;;
  store_MessageBuffer 5 (to_byte (Z.shiftr (Z.land value 0x00FF0000) 16)) ;;
  store_MessageBuffer 6 (to_byte (Z.shiftr (Z.land value 0x0000FF00) 8)) ;;
  store_MessageBuffer 7 (to_byte (Z.shiftr (Z.land value 0x000000FF) 0)) ;;
  WriteMessage (InMessageBuffer 0) 8 Complete ;;
  LongSleepWithWatchdog.

(** [Reboot]: the notification, then [for (;;);], a loop whose test is
    always true and whose body is empty. *)
Definition Reboot (fuel : nat) (value : Z) : M unit :=
  Reboot_notify value ;;
  while_loop fuel (fun _ => ret true) (fun _ => ret tt) tt.

(** ** Pointers into a range *)

(** [start + k] *)
Definition ptr_add (start : ptr) (k : Z) : ptr :=
  match start with
  | InMessageBuffer off => InMessageBuffer (off + k)
  | InArray a off => InArray a (off + k)
  end.

(** ** Further observations *)

(** A step that leaves the staging buffer, the bytes sent to the transmit
    ports, the tapes and both read positions as they are: it reads neither
    the status register nor the receive port. *)
Record undisturbed (w w' : World) : Prop := mkUndisturbed {
  undisturbed_buffer : MessageBuffer w' = MessageBuffer w;
  undisturbed_ports : port_writes w' = port_writes w;
  undisturbed_status_tape : status_tape w' = status_tape w;
  undisturbed_status_pos : status_pos w' = status_pos w;
  undisturbed_rx_tape : rx_tape w' = rx_tape w;
  undisturbed_rx_pos : rx_pos w' = rx_pos w
}.

(** The first write of a watchdog service. *)
Definition is_service (e : event) : bool :=
  match e with
  | Wr Watchdog1 0x55 => true
  | _ => false
  end.

(** How many times the watchdog was serviced. *)
Definition services (w : World) : nat :=
  List.length (filter is_service (events w)).

(** The two bytes at [i] and [i + 1] of the staging buffer, read as a
    big-endian 16-bit number. *)
Definition read_u16_be (w : World) (i : Z) : Z :=
  MessageBuffer w i * 256 + MessageBuffer w (i + 1).

(** The acknowledge command. *)
Definition is_acknowledge (e : event) : Prop :=
  e = Wr DLC_Transmit_Command 0x02.

(** What a call of [ReadMessage] may change: bytes 0 to 24 of the staging
    buffer, and the port writes, by acknowledge commands only. *)
Record receives (w w' : World) : Prop := mkReceives {
  receives_buffer :
    forall i, i < 0 \/ 25 <= i -> MessageBuffer w' i = MessageBuffer w i;
  receives_ports :
    exists l, port_writes w' = port_writes w ++ l /\ Forall is_acknowledge l;
  receives_status_tape : status_tape w' = status_tape w;
  receives_rx_tape : rx_tape w' = rx_tape w
}.

(** The read states [ReadMessage] can report. *)
Definition is_read_state (rs : Z) : Prop :=
  rs = 1 \/ rs = 2 \/ rs = 0x0A \/ rs = 0x0B \/ rs = 0xEE.

(** The receive status is one that carries a data byte. *)
Definition is_data_status (st : Z) : Prop := st = 1 \/ st = 2 \/ st = 4.

(** The receive status is one that carries a completion code. *)
Definition is_completion_status (st : Z) : Prop := st = 5 \/ st = 6 \/ st = 7.

(** The state while the copy runs, the indices from [k] up being done. *)
Definition copying (w : World) (length offset : Z) (k : nat) (w' : World)
  : Prop :=
  (forall j, j < offset \/ offset + length <= j ->
             MessageBuffer w' j = MessageBuffer w j) /\
  port_writes w' = port_writes w /\
  status_pos w' = status_pos w /\ rx_pos w' = rx_pos w /\
  Z.of_nat (services w') =
  Z.of_nat (services w) + ((length + 99) / 100 - (Z.of_nat k + 99) / 100).

(** The staging buffer once [Reboot] has staged its frame, the four bytes
    of the value being [b3], [b2], [b1], [b0]. *)
Definition staged_reboot_frame (buf : Z -> Z) (b3 b2 b1 b0 : Z) : Z -> Z :=
  upd (upd (upd (upd (upd (upd (upd (upd buf 0 0x6C) 1 0xF0) 2 0x10) 3 0x60)
                   4 b3) 5 b2) 6 b1) 7 b0.

(** Byte [n] of a value, as [Reboot] extracts it. *)
Definition value_byte (value : Z) (n : Z) : Z :=
  to_byte (Z.shiftr (Z.land value (Z.shiftl 0xFF (8 * n))) (8 * n)).

(** A stretch of a polling loop: it read the status register [ds] times and
    the receive port [dr] times, and sent [sent] to the transmit ports. *)
Record turn (ds dr : nat) (sent : list event) (w w' : World) : Prop := mkTurn {
  turn_status_tape : status_tape w' = status_tape w;
  turn_rx_tape : rx_tape w' = rx_tape w;
  turn_status_pos : status_pos w' = (status_pos w + ds)%nat;
  turn_rx_pos : rx_pos w' = (rx_pos w + dr)%nat;
  turn_ports : port_writes w' = port_writes w ++ sent
}.

(** What a turn of the polling loop of [ReadMessage] may hand on: a length
    for the next turn, or a return value and a read state. *)
Definition flow_in_range (r : flow (Z * Z) (Z * Z * Z)) : Prop :=
  match r with
  | Next (length, _) => 0 <= length <= 25
  | Return (ret, _, rs) => 0 <= ret <= 25 /\ is_read_state rs
  end.

(** A frame of three data bytes followed by the completion code 0x30. *)
Definition suppressed_frame_of_three : World :=
  world_of (fun _ => 0)
    (fun n => if (n <? 3)%nat then 0x20 else 0xE0)
    (fun n => if (n <? 3)%nat then 0xA0 + Z.of_nat n else 0x30).

(** A frame of three data bytes followed by its completion code, 0x40. *)
Definition frame_of_three : World :=
  world_of (fun _ => 0)
    (fun n => if (n <? 3)%nat then 0x20 else 0xC0)
    (fun n => if (n <? 3)%nat then 0xA0 + Z.of_nat n else 0x40).

(** Data bytes without end: the byte [n] is the [n]-th one. *)
Definition flood : World :=
  world_of (fun _ => 0) (fun _ => 0x20) (fun n => Z.of_nat n).

(** What [TryReadNextByte], called in [w] with [*data = data] and
    [*completionCode = completionCode], hands back: the result [x] is the
    value returned, [*data], [*completionCode] and [*type]. *)
Definition try_read_result (data completionCode : Z) (w : World)
  (x : Z * Z * Z * ReadType) (w' : World) : Prop :=
  MessageBuffer w' = MessageBuffer w /\ rx_tape w' = rx_tape w /\
  let '(ret, d, c, type) := x in
  match type with
  | MessageData =>
      ret = 1 /\ d = to_byte (rx_tape w (rx_pos w)) /\ c = completionCode /\
      rx_pos w' = S (rx_pos w) /\ port_writes w' = port_writes w
  | CompletionCode =>
      ret = 1 /\ d = data /\ c = to_byte (rx_tape w (rx_pos w)) /\
      rx_pos w' = S (rx_pos w) /\
      port_writes w' = port_writes w ++ [Wr DLC_Transmit_Command 0x02]
  | Overflow | Silence =>
      ret = 0 /\ d = 0 /\ c = 0 /\
      rx_pos w' = rx_pos w /\ port_writes w' = port_writes w
  end.

(** A step that reads the status register at most [k] times and the
    receive port not at all. *)
Definition polled_at_most (k : Z) (w w' : World) : Prop :=
  Z.of_nat (status_pos w) <= Z.of_nat (status_pos w')
  <= Z.of_nat (status_pos w) + k /\
  rx_pos w' = rx_pos w.

(** Data bytes, then receive overflow from the fourth check on. *)
Definition three_then_overflow : World :=
  world_of (fun _ => 0)
    (fun n => if (n <? 3)%nat then 0x20 else 0x60)
    (fun n => 0x11 * Z.of_nat (S n)).

(** * Proofs *)

(** ** Rules for [post] *)

Lemma post_ret {A} (a : A) w (Q : A -> World -> Prop) :
  Q a w -> post (ret a) w Q.
Proof. exact (fun H => H). Qed.

Lemma post_bind {A B} (m : M A) (f : A -> M B) w (Q : B -> World -> Prop) :
  post m w (fun a w' => post (f a) w' Q) -> post (bind m f) w Q.
Proof.
  unfold post, bind. destruct (m w); auto.
Qed.

Lemma post_bind_inv {A B} (m : M A) (f : A -> M B) w (Q : B -> World -> Prop) :
  post (bind m f) w Q -> post m w (fun a w' => post (f a) w' Q).
Proof.
  unfold post, bind. destruct (m w); auto.
Qed.

Lemma post_weaken {A} (m : M A) w (P Q : A -> World -> Prop) :
  post m w P -> (forall a w', P a w' -> Q a w') -> post m w Q.
Proof.
  unfold post. destruct (m w); auto.
Qed.

Lemma post_and {A} (m : M A) w (P Q : A -> World -> Prop) :
  post m w P -> post m w Q -> post m w (fun a w' => P a w' /\ Q a w').
Proof.
  unfold post. destruct (m w); auto.
Qed.

Lemma post_ok {A} (m : M A) w (Q : A -> World -> Prop) :
  post m w Q -> exists a w', m w = Ok a w' /\ Q a w'.
Proof.
  unfold post. destruct (m w) as [a w'|e]; [eauto | contradiction].
Qed.

Lemma ok_post {A} (m : M A) w a w' (Q : A -> World -> Prop) :
  m w = Ok a w' -> Q a w' -> post m w Q.
Proof.
  unfold post. intros ->. auto.
Qed.

Lemma post_for_loop {A} (body : Z -> A -> M A) (I : Z -> A -> World -> Prop) :
  forall n index acc w,
    I index acc w ->
    (forall i a w0, index <= i < index + Z.of_nat n -> I i a w0 ->
       post (body i a) w0 (fun a' w' => I (i + 1) a' w')) ->
    post (for_loop n index acc body) w
         (fun a w' => I (index + Z.of_nat n) a w').
Proof.
  induction n as [|n IH]; intros index acc w H0 Hstep.
  - cbn [for_loop]. apply post_ret. now rewrite Z.add_0_r.
  - cbn [for_loop]. apply post_bind.
    eapply post_weaken; [apply (Hstep index acc w); [lia | exact H0]|].
    intros a' w' Ha'. cbv beta in Ha'.
    replace (index + Z.of_nat (S n)) with ((index + 1) + Z.of_nat n) by lia.
    apply IH; [exact Ha'|].
    intros i a w0 Hi. apply Hstep. lia.
Qed.

Lemma post_for_range {A} (body : Z -> A -> M A) (I : Z -> A -> World -> Prop)
  lo hi acc w :
  lo <= hi ->
  I lo acc w ->
  (forall i a w0, lo <= i < hi -> I i a w0 ->
     post (body i a) w0 (fun a' w' => I (i + 1) a' w')) ->
  post (for_range lo hi acc body) w (fun a w' => I hi a w').
Proof.
  intros Hle H0 Hstep. unfold for_range.
  eapply post_weaken.
  - apply (post_for_loop body I (Z.to_nat (hi - lo)) lo acc w H0).
    intros i a w0 Hi. apply Hstep. lia.
  - intros a w'. cbv beta.
    now replace (lo + Z.of_nat (Z.to_nat (hi - lo))) with hi by lia.
Qed.

Lemma for_range_empty {A} (body : Z -> A -> M A) lo hi acc w :
  hi <= lo -> for_range lo hi acc body w = Ok acc w.
Proof.
  intros H. unfold for_range.
  replace (Z.to_nat (hi - lo)) with O by lia. reflexivity.
Qed.

Lemma post_for_down (body : Z -> M unit) (I : nat -> World -> Prop) :
  forall n w,
    I n w ->
    (forall k w0, (k < n)%nat -> I (S k) w0 ->
       post (body (Z.of_nat k)) w0 (fun _ w' => I k w')) ->
    post (for_down n body) w (fun _ w' => I O w').
Proof.
  induction n as [|n IH]; intros w H0 Hstep.
  - cbn [for_down]. apply post_ret. exact H0.
  - cbn [for_down]. apply post_bind.
    eapply post_weaken; [apply (Hstep n w); [lia | exact H0]|].
    intros u w' Hw'. cbv beta in Hw'.
    apply IH; [exact Hw'|].
    intros k w0 Hk. apply Hstep. lia.
Qed.

(** [step lem]: the first step of a sequence satisfies [lem]; go on with the
    rest. *)
Ltac step lem :=
  apply post_bind; eapply post_weaken;
  [apply lem; try reflexivity | cbv beta].

(** ** Silent steps *)

Lemma silent_refl w : silent w w.
Proof. now constructor. Qed.

Lemma silent_trans w1 w2 w3 : silent w1 w2 -> silent w2 w3 -> silent w1 w3.
Proof.
  intros [a1 b1 c1 d1 e1] [a2 b2 c2 d2 e2].
  constructor; congruence.
Qed.

Lemma port_writes_log e w :
  port_writes (log e w) =
  port_writes w ++ (if is_port_write e then [e] else []).
Proof.
  unfold port_writes. cbn [log events filter].
  destruct (is_port_write e); [reflexivity | now rewrite app_nil_r].
Qed.

Lemma silent_log e w : is_port_write e = false -> silent w (log e w).
Proof.
  intros He. constructor; try reflexivity.
  rewrite port_writes_log, He. apply app_nil_r.
Qed.

Lemma post_nop w : post nop w (fun _ w' => silent w w').
Proof. apply silent_log. reflexivity. Qed.

Lemma post_silent_bind {A B} (m : M A) (f : A -> M B) w :
  post m w (fun _ w' => silent w w') ->
  (forall a w', post (f a) w' (fun _ w'' => silent w' w'')) ->
  post (bind m f) w (fun _ w' => silent w w').
Proof.
  intros Hm Hf. apply post_bind.
  eapply post_weaken; [exact Hm|].
  intros a w' Hs. eapply post_weaken; [apply Hf|].
  intros b w'' Hs'. cbv beta in Hs, Hs'. exact (silent_trans _ _ _ Hs Hs').
Qed.

Lemma post_write_quiet r v w :
  is_port_write (Wr r v) = false ->
  post (write_reg r v) w (fun _ w' => silent w w').
Proof.
  intros H. unfold post, write_reg.
  pose proof (silent_log (Wr r v) w H) as [a b c d e].
  destruct r; constructor; assumption.
Qed.

Lemma post_read_Watchdog2 w :
  post read_Watchdog2 w (fun _ w' => silent w w').
Proof. apply silent_log. reflexivity. Qed.

Lemma post_read_DLC_Status w :
  post read_DLC_Status w (fun _ w' => silent w w').
Proof.
  unfold post, read_DLC_Status.
  pose proof (silent_log (Rd DLC_Status
                (to_byte (status_tape w (status_pos w)))) w eq_refl)
    as [a b c d e].
  constructor; assumption.
Qed.

Lemma post_ScratchWatchdog w :
  post ScratchWatchdog w (fun _ w' => silent w w').
Proof.
  unfold ScratchWatchdog.
  repeat (apply post_silent_bind;
          [first [apply post_write_quiet; reflexivity
                 | apply post_read_Watchdog2] | intros ? ?]).
  apply post_write_quiet; reflexivity.
Qed.

Lemma post_WasteTime w :
  post WasteTime w (fun _ w' => silent w w').
Proof.
  unfold WasteTime.
  repeat (apply post_silent_bind; [apply post_nop | intros ? ?]).
  apply post_nop.
Qed.

(** ** The staging buffer *)

Lemma post_store_MessageBuffer i v w :
  0 <= i < MessageBufferSize ->
  post (store_MessageBuffer i v) w
       (fun _ w' => MessageBuffer w' = upd (MessageBuffer w) i v /\
                    buffer_only w w').
Proof.
  intros Hi. unfold post, store_MessageBuffer.
  replace ((0 <=? i) && (i <? MessageBufferSize)) with true
    by (symmetry; apply andb_true_intro; split; [apply Z.leb_le | apply Z.ltb_lt]; lia).
  split; [reflexivity | repeat split].
Qed.

Lemma upd_same f i v : upd f i v i = v.
Proof. unfold upd. now rewrite Z.eqb_refl. Qed.

Lemma upd_other f i v j : j <> i -> upd f i v j = f j.
Proof. unfold upd. intros H. now apply Z.eqb_neq in H as ->. Qed.

Lemma post_ClearMessageBuffer w :
  post ClearMessageBuffer w
       (fun _ w' => (forall i, 0 <= i < MessageBufferSize ->
                               MessageBuffer w' i = 0) /\
                    buffer_only w w').
Proof.
  unfold ClearMessageBuffer.
  eapply post_weaken.
  - apply (post_for_range (fun index _ => store_MessageBuffer index 0)
             (fun n _ w' => (forall i, 0 <= i < n -> MessageBuffer w' i = 0) /\
                            buffer_only w w')).
    + unfold MessageBufferSize; lia.
    + split; [intros; lia | repeat split].
    + intros i [] w0 Hi [Hz Hb].
      eapply post_weaken; [apply post_store_MessageBuffer; exact Hi|].
      intros _ w' [Hm Hb']. split.
      * intros j Hj. rewrite Hm.
        destruct (Z.eq_dec j i) as [->|Hne];
          [apply upd_same | rewrite upd_other by exact Hne; apply Hz; lia].
      * unfold buffer_only in *. intuition congruence.
  - intros [] w' H. exact H.
Qed.

Lemma post_load w start i v :
  load start i w = Ok v w ->
  forall w', MessageBuffer w' = MessageBuffer w ->
  post (load start i) w' (fun v' w'' => v' = v /\ w'' = w').
Proof.
  destruct start as [off|a off]; cbn [load]; unfold post.
  - unfold load_MessageBuffer.
    destruct ((0 <=? off + i) && (off + i <? MessageBufferSize));
      [|discriminate].
    intros H w' Hm. rewrite Hm. inversion H. auto.
  - destruct (array_get a (off + i)); [|discriminate].
    unfold ret. intros H w' _. inversion H. auto.
Qed.

(** A cell that the copy has not written yet still reads as at the call. *)
Lemma load_unread w start length offset k w' i v :
  forward_or_apart start length offset ->
  copied w start length offset (S k) w' ->
  i = Z.of_nat k -> i < length ->
  load start i w = Ok v w ->
  post (load start i) w' (fun v' w'' => v' = v /\ w'' = w').
Proof.
  intros Hfa (_ & Hlow & Hhigh) -> Hlt Hl.
  destruct start as [s|a off]; cbn [load] in *; unfold post.
  - unfold load_MessageBuffer in *.
    destruct ((0 <=? s + Z.of_nat k) && (s + Z.of_nat k <? MessageBufferSize));
      [|discriminate].
    inversion Hl; subst v. split; [|reflexivity].
    cbn [forward_or_apart] in Hfa. destruct Hfa as [Hf|Hf].
    + apply Hlow. lia.
    + apply Hhigh. lia.
  - destruct (array_get a (off + Z.of_nat k)); [|discriminate].
    unfold ret. inversion Hl. auto.
Qed.

Lemma CopyToMessageBuffer_forward w start length offset :
  0 <= offset -> offset + length <= MessageBufferSize ->
  readable w start length ->
  forward_or_apart start length offset ->
  post (CopyToMessageBuffer start length offset) w
       (fun _ w' => copied w start length offset O w').
Proof.
  intros Hoff Hfit Hread Hfa. unfold CopyToMessageBuffer.
  apply (post_for_down _ (copied w start length offset)).
  - repeat split; intros; try reflexivity. lia.
  - intros k w0 Hk Hinv.
    assert (Hkl : Z.of_nat k < length) by lia.
    destruct (Hread (Z.of_nat k) ltac:(lia)) as [v Hv].
    apply post_bind.
    eapply post_weaken;
      [apply (load_unread w start length offset k w0 _ v Hfa Hinv eq_refl Hkl Hv)|].
    intros v' w1 [-> ->]. apply post_bind.
    eapply post_weaken;
      [apply post_store_MessageBuffer; lia|].
    intros _ w2 [Hm _].
    assert (Hc : copied w start length offset k w2).
    { destruct Hinv as (Hdone & Hlow & Hhigh). repeat split.
      - intros i Hi. rewrite Hm.
        destruct (Z.eq_dec i (Z.of_nat k)) as [->|Hne].
        + replace (offset + Z.of_nat k) with (Z.of_nat k + offset) by lia.
          rewrite upd_same. exact Hv.
        + rewrite upd_other by lia. apply Hdone. lia.
      - intros j Hj. rewrite Hm, upd_other by lia. apply Hlow. lia.
      - intros j Hj. rewrite Hm, upd_other by lia. now apply Hhigh. }
    assert (Hs : forall w3, silent w2 w3 -> copied w start length offset k w3).
    { intros w3 [Hb _ _ _ _]. unfold copied in *. rewrite Hb. exact Hc. }
    destruct (Z.rem (Z.of_nat k) 100 =? 0).
    + eapply post_weaken; [apply post_ScratchWatchdog|].
      intros u w3. apply Hs.
    + apply post_ret. exact Hc.
Qed.

Lemma readable_buffer w s length :
  0 <= s -> s + length <= MessageBufferSize ->
  readable w (InMessageBuffer s) length.
Proof.
  intros Hs Hl i Hi. exists (MessageBuffer w (s + i)).
  cbn [load]. unfold load_MessageBuffer.
  replace ((0 <=? s + i) && (s + i <? MessageBufferSize)) with true;
    [reflexivity|].
  symmetry. apply andb_true_intro. split; [apply Z.leb_le | apply Z.ltb_lt]; lia.
Qed.

Lemma array_get_Some a i :
  0 <= i < Z.of_nat (length a) -> exists v, array_get a i = Some v.
Proof.
  intros Hi. unfold array_get.
  replace (0 <=? i) with true by (symmetry; apply Z.leb_le; lia).
  destruct (nth_error a (Z.to_nat i)) eqn:E; [eauto|].
  apply nth_error_None in E. lia.
Qed.

Lemma readable_array w a off len :
  0 <= off -> off + len <= Z.of_nat (length a) ->
  readable w (InArray a off) len.
Proof.
  intros Ho Hl i Hi.
  destruct (array_get_Some a (off + i) ltac:(lia)) as [v Hv].
  exists v. cbn [load]. now rewrite Hv.
Qed.

(** C1, as amended.  For every source range that can be read, and every
    destination [offset .. offset+length-1] inside the staging buffer, such
    that the source is another array, or begins in the staging buffer at or
    before the destination (a move to a later offset, the overlapping moves
    from offset 0 with [0 < offset < length] among them), or lies past the
    end of the destination: [CopyToMessageBuffer] returns, and
    [MessageBuffer[offset + i]] then holds what [start[i]] held at the call,
    for every [i] below [length]. *)
Theorem CopyToMessageBuffer_reproduces_source w start length offset :
  0 <= offset -> offset + length <= MessageBufferSize ->
  readable w start length ->
  forward_or_apart start length offset ->
  copy_reproduces w start length offset.
Proof.
  intros Hoff Hfit Hread Hfa.
  destruct (post_ok _ _ _
              (CopyToMessageBuffer_forward w start length offset
                 Hoff Hfit Hread Hfa)) as ([] & w' & Hrun & Hc & _).
  exists w'. split; [exact Hrun|].
  intros i Hi. apply Hc. lia.
Qed.

(** An overlapping move inside the buffer, from offset 0 to offset 3, of 5
    bytes. *)
Lemma CopyToMessageBuffer_overlapping_forward_move :
  copy_reproduces ramp (InMessageBuffer 0) 5 3.
Proof.
  apply CopyToMessageBuffer_reproduces_source.
  - lia.
  - unfold MessageBufferSize. lia.
  - apply readable_buffer; unfold MessageBufferSize; lia.
  - left. lia.
Defined.

(** C1 as stated fails for a source that begins in the staging buffer after
    the destination and overlaps it: copying [MessageBuffer[1..2]] to offset
    0, the copy of index 1 overwrites [MessageBuffer[1]] before index 0 reads
    it, and [MessageBuffer[0]] ends with what [start[1]] held, not
    [start[0]]. *)
Lemma CopyToMessageBuffer_backward_overlap :
  exists w' v0 v1,
    CopyToMessageBuffer (InMessageBuffer 1) 2 0 ramp = Ok tt w' /\
    load (InMessageBuffer 1) 0 ramp = Ok v0 ramp /\
    load (InMessageBuffer 1) 1 ramp = Ok v1 ramp /\
    MessageBuffer w' (0 + 0) = v1 /\
    MessageBuffer w' (0 + 0) <> v0.
Proof.
  eexists. exists 1, 2.
  split; [vm_compute; reflexivity|].
  repeat split; vm_compute; congruence.
Qed.

(** C6.  [ClearMessageBuffer] returns with all 1024 bytes of the staging
    buffer zero, and it makes no register access at all while it does so: in
    particular it never writes the watchdog registers. *)
Theorem ClearMessageBuffer_zero_fill_without_watchdog w :
  exists w',
    ClearMessageBuffer w = Ok tt w' /\
    (forall i, 0 <= i < MessageBufferSize -> MessageBuffer w' i = 0) /\
    events w' = events w /\
    watchdog_writes w' = watchdog_writes w.
Proof.
  destruct (post_ok _ _ _ (post_ClearMessageBuffer w))
    as ([] & w' & Hrun & Hz & He & _).
  exists w'. repeat split; try assumption.
  unfold watchdog_writes. now rewrite He.
Qed.

(** ** Rules for [outcome] *)

Lemma outcome_bind {A B} (m : M A) (f : A -> M B) w Q F :
  outcome m w (fun a w' => outcome (f a) w' Q F) F ->
  outcome (bind m f) w Q F.
Proof.
  unfold outcome, bind. destruct (m w); auto.
Qed.

Lemma outcome_weaken {A} (m : M A) w (P Q : A -> World -> Prop) (F G : fault -> Prop) :
  outcome m w P F ->
  (forall a w', P a w' -> Q a w') -> (forall e, F e -> G e) ->
  outcome m w Q G.
Proof.
  unfold outcome. destruct (m w); auto.
Qed.

Lemma post_outcome {A} (m : M A) w Q F : post m w Q -> outcome m w Q F.
Proof.
  unfold post, outcome. destruct (m w); [auto | contradiction].
Qed.

(** After a step that cannot fail. *)
Lemma outcome_after {A B} (m : M A) (f : A -> M B) w P Q F :
  post m w P ->
  (forall a w', P a w' -> outcome (f a) w' Q F) ->
  outcome (bind m f) w Q F.
Proof.
  intros Hm Hf. apply outcome_bind. apply post_outcome.
  eapply post_weaken; [exact Hm | exact Hf].
Qed.

(** ** Steps that send to the transmit ports *)

Lemma silent_emits w w' : silent w w' -> emits [] w w'.
Proof.
  intros [Hb Hp _ _ _]. split; [exact Hb | now rewrite app_nil_r].
Qed.

Lemma emits_trans l1 l2 w1 w2 w3 :
  emits l1 w1 w2 -> emits l2 w2 w3 -> emits (l1 ++ l2) w1 w3.
Proof.
  intros [b1 p1] [b2 p2]. split; [congruence|].
  now rewrite p2, p1, app_assoc.
Qed.

Lemma emits_refl w : emits [] w w.
Proof. apply silent_emits, silent_refl. Qed.

Lemma post_write_port r v w :
  is_port_write (Wr r v) = true ->
  post (write_reg r v) w (fun _ w' => emits [Wr r v] w w').
Proof.
  intros H. unfold post, write_reg.
  destruct r; try discriminate H; split; try reflexivity;
    rewrite port_writes_log; reflexivity.
Qed.

Lemma post_while_counted (test : Z -> bool) (body : Z * Z -> M (Z * Z)) :
  (forall s c w,
      post (body (s, c)) w (fun r w' => snd r = c + 1 /\ silent w w')) ->
  forall fuel s c w,
    Z.max 0 (250 - c) < Z.of_nat fuel ->
    post (while_loop fuel
            (fun '(status, loopCount) =>
               ret (test status && (loopCount <? 250)))
            body (s, c)) w
         (fun _ w' => silent w w').
Proof.
  intros Hbody. induction fuel as [|fuel IH]; intros s c w Hfuel; [lia|].
  cbn [while_loop]. apply post_bind. apply post_ret.
  destruct (test s && (c <? 250)) eqn:Hc.
  - apply andb_prop in Hc as [_ Hlt%Z.ltb_lt].
    apply post_bind. eapply post_weaken; [apply Hbody|].
    intros [s' c'] w' [Hc' Hs]. cbn [snd] in Hc'. subst c'.
    eapply post_weaken; [apply IH; lia|].
    intros r w'' Hs'. cbv beta in Hs'. exact (silent_trans _ _ _ Hs Hs').
  - apply post_ret. apply silent_refl.
Qed.

Lemma post_spin n w :
  0 <= n ->
  post (for_range 0 n tt (fun _ _ => ScratchWatchdog ;; WasteTime)) w
       (fun _ w' => silent w w').
Proof.
  intros Hn.
  apply (post_for_range (fun _ _ => ScratchWatchdog ;; WasteTime)
           (fun _ _ w' => silent w w')); [exact Hn | apply silent_refl |].
  intros i a w0 _ Hs.
  eapply post_weaken.
  - apply post_silent_bind; [apply post_ScratchWatchdog|].
    intros ? ?. apply post_WasteTime.
  - intros u w' Hs'. cbv beta in Hs'. exact (silent_trans _ _ _ Hs Hs').
Qed.

Lemma post_wait_round n c w :
  0 <= n ->
  post (for_range 0 n tt (fun _ _ => ScratchWatchdog ;; WasteTime) ;;
        ScratchWatchdog ;;
        s' <- read_DLC_Status ;;
        ret (Z.land s' 0x03, c + 1)) w
       (fun r w' => snd r = c + 1 /\ silent w w').
Proof.
  intros Hn.
  step (post_spin n w Hn). intros u w1 H1.
  step post_ScratchWatchdog. intros u' w2 H2.
  step post_read_DLC_Status. intros s' w3 H3.
  apply post_ret. cbn [snd]. split; [reflexivity|].
  exact (silent_trans _ _ _ H1 (silent_trans _ _ _ H2 H3)).
Qed.

Lemma post_backoff s w : post (backoff s) w (fun _ w' => silent w w').
Proof.
  unfold backoff.
  apply (post_while_counted (fun status => (status =? 0x02) || (status =? 0x03))).
  - intros s0 c w0. apply (post_wait_round 50 c w0). lia.
  - cbn. lia.
Qed.

Lemma post_flush_wait s w : post (flush_wait s) w (fun _ w' => silent w w').
Proof.
  unfold flush_wait.
  apply (post_while_counted (fun status => negb (status =? 0))).
  - intros s0 c w0. apply (post_wait_round 25 c w0). lia.
  - cbn. lia.
Qed.

(** ** [WriteMessage] *)

Lemma load_peek start i w :
  load start i w =
  match peek (MessageBuffer w) start i with
  | inl v => Ok v w
  | inr e => Fault e
  end.
Proof.
  destruct start as [off|a off]; cbn [load peek].
  - unfold load_MessageBuffer.
    now destruct ((0 <=? off + i) && (off + i <? MessageBufferSize)).
  - now destruct (array_get a (off + i)).
Qed.

Lemma outcome_load start i w (Q : Z -> World -> Prop) (F : fault -> Prop) :
  match peek (MessageBuffer w) start i with
  | inl v => Q v w
  | inr e => F e
  end ->
  outcome (load start i) w Q F.
Proof.
  unfold outcome. rewrite load_peek.
  now destruct (peek (MessageBuffer w) start i).
Qed.

Lemma contents_zero buf :
  (forall i, 0 <= i < MessageBufferSize -> buf i = 0) ->
  contents buf = repeat 0 (Z.to_nat MessageBufferSize).
Proof.
  intros Hz. unfold contents.
  remember (Z.to_nat MessageBufferSize) as n eqn:En.
  assert (H : forall m, (m <= n)%nat ->
            map (fun i => buf (Z.of_nat i)) (seq 0 m) = repeat 0 m).
  { induction m as [|m IH]; intros Hm; [reflexivity|].
    rewrite seq_S, map_app, IH by lia. cbn [map Nat.add].
    rewrite Hz by (unfold MessageBufferSize in *; lia).
    now rewrite <- repeat_cons. }
  apply H. lia.
Qed.

Lemma post_send_rest v w :
  post (write_reg DLC_Transmit_FIFO v ;;
        ScratchWatchdog ;;
        s <- read_DLC_Status ;;
        backoff (Z.land s 0x03) ;;
        ret tt) w
       (fun _ w' => emits [Wr DLC_Transmit_FIFO v] w w').
Proof.
  apply post_bind.
  eapply post_weaken; [apply post_write_port; reflexivity|].
  intros u w1 H1. cbv beta in H1.
  eapply post_weaken.
  - apply post_silent_bind; [apply post_ScratchWatchdog|]. intros ? ?.
    apply post_silent_bind; [apply post_read_DLC_Status|]. intros ? ?.
    apply post_silent_bind; [apply post_backoff|]. intros ? ?.
    apply post_ret, silent_refl.
  - intros u' w2 H2. cbv beta in H2.
    apply silent_emits in H2.
    exact (emits_trans _ _ _ _ _ H1 H2).
Qed.

Lemma send_loop start :
  forall n index w,
    outcome (for_loop n index tt (fun index _ => send_byte start index)) w
      (fun _ w' =>
         exists body,
           read_range (MessageBuffer w) start n index = inl body /\
           emits (map (Wr DLC_Transmit_FIFO) body) w w')
      (fun e => read_range (MessageBuffer w) start n index = inr e).
Proof.
  induction n as [|n IH]; intros index w.
  - cbn. exists []. split; [reflexivity | apply emits_refl].
  - cbn [for_loop read_range]. apply outcome_bind.
    unfold send_byte. apply outcome_bind. apply outcome_load.
    destruct (peek (MessageBuffer w) start index) as [v|e]; [|reflexivity].
    apply post_outcome.
    eapply post_weaken; [apply post_send_rest|].
    intros [] w1 H1. cbv beta in H1.
    eapply outcome_weaken; [apply IH | |].
    + intros [] w2 (body & Hr & He). cbv beta.
      destruct H1 as [Hb1 Hp1]. rewrite Hb1 in Hr. rewrite Hr.
      exists (v :: body). split; [reflexivity|].
      exact (emits_trans _ _ _ _ _ (conj Hb1 Hp1) He).
    + intros e He. cbv beta in He. destruct H1 as [Hb1 _].
      rewrite Hb1 in He. now rewrite He.
Qed.

Lemma post_frame_start segment w :
  post (if has_flag segment Start
        then write_reg DLC_Transmit_Command 0x14
        else ret tt) w
       (fun _ w' => emits (frame_head segment) w w').
Proof.
  unfold frame_head. destruct (has_flag segment Start).
  - apply post_write_port. reflexivity.
  - apply post_ret, emits_refl.
Qed.

Lemma post_frame_end w :
  post (WasteTime ;;
        write_reg DLC_Transmit_Command 0x03 ;;
        write_reg DLC_Transmit_FIFO 0x00 ;;
        s <- read_DLC_Status ;;
        flush_wait (Z.land s 0x03) ;;
        ClearMessageBuffer) w
       (fun _ w' =>
          buffer_contents w' = repeat 0 (Z.to_nat MessageBufferSize) /\
          port_writes w' =
          port_writes w ++
            [Wr DLC_Transmit_Command 0x03; Wr DLC_Transmit_FIFO 0x00]).
Proof.
  step post_WasteTime. intros u0 w0 H0%silent_emits.
  step post_write_port. intros u1 w1 H1.
  step post_write_port. intros u2 w2 H2.
  step post_read_DLC_Status. intros s w3 H3%silent_emits.
  step post_flush_wait. intros r w4 H4%silent_emits.
  eapply post_weaken; [apply post_ClearMessageBuffer|].
  intros u5 w5 [Hz (He & _)].
  split; [apply contents_zero, Hz|].
  pose proof (emits_trans _ _ _ _ _ H0
               (emits_trans _ _ _ _ _ H1
                  (emits_trans _ _ _ _ _ H2
                     (emits_trans _ _ _ _ _ H3 H4)))) as [_ Hp].
  unfold port_writes in *. rewrite He. exact Hp.
Qed.

Lemma WriteMessage_outcome start length segment w :
  outcome (WriteMessage start length segment) w
    (fun _ w' =>
       WriteMessage_view start length segment
         (MessageBuffer w) (port_writes w)
       = inl (buffer_contents w', port_writes w'))
    (fun e =>
       WriteMessage_view start length segment
         (MessageBuffer w) (port_writes w)
       = inr e).
Proof.
  unfold WriteMessage, WriteMessage_view.
  eapply outcome_after; [apply post_ScratchWatchdog|].
  intros u0 w0 H0%silent_emits.
  eapply outcome_after; [apply post_frame_start|].
  intros u1 w1 H1. cbv beta in H1.
  pose proof (emits_trans _ _ _ _ _ H0 H1) as [Hb Hp]. cbn [app] in Hp.
  clear H0 H1.
  apply outcome_bind. unfold for_range.
  eapply outcome_weaken; [apply send_loop | |].
  - intros [] w2 (body & Hr & Hb2 & Hp2). cbv beta.
    rewrite Hb in Hr. rewrite Hr.
    destruct (has_flag segment End).
    + eapply outcome_after; [apply post_write_port; reflexivity|].
      intros u3 w3 [Hb3 Hp3]. apply outcome_bind. apply outcome_load.
      replace (MessageBuffer w3) with (MessageBuffer w) by congruence.
      destruct (peek (MessageBuffer w) start (length - 1)) as [v|e];
        [|reflexivity].
      eapply outcome_after; [apply post_write_port; reflexivity|].
      intros u4 w4 [Hb4 Hp4]. apply post_outcome.
      eapply post_weaken; [apply post_frame_end|].
      intros u5 w5 [Hz5 Hp5]. cbv beta.
      rewrite Hz5, Hp5, Hp4, Hp3, Hp2, Hp. unfold frame_tail.
      f_equal. f_equal. repeat rewrite <- app_assoc. reflexivity.
    + unfold outcome, ret. unfold buffer_contents.
      rewrite Hb2, Hb, Hp2, Hp. now rewrite <- app_assoc.
  - intros e He. cbv beta in He. rewrite Hb in He. now rewrite He.
Qed.

Lemma WriteMessage_caller_view start length segment w :
  caller_view (WriteMessage start length segment w) =
  WriteMessage_view start length segment (MessageBuffer w) (port_writes w).
Proof.
  pose proof (WriteMessage_outcome start length segment w) as H.
  unfold outcome in H. unfold caller_view.
  destruct (WriteMessage start length segment w); now rewrite H.
Qed.

Lemma load_Ok_peek start i w v w' :
  load start i w = Ok v w' -> peek (MessageBuffer w) start i = inl v.
Proof.
  rewrite load_peek. destruct (peek (MessageBuffer w) start i); congruence.
Qed.

Lemma read_range_readable buf start :
  forall n index,
    (forall i, index <= i < index + Z.of_nat n ->
       exists v, peek buf start i = inl v) ->
    exists l, read_range buf start n index = inl l.
Proof.
  induction n as [|n IH]; intros index H; [now exists []|].
  cbn [read_range].
  destruct (H index ltac:(lia)) as [v ->].
  destruct (IH (index + 1)) as [l ->]; [|eauto].
  intros i Hi. apply H. lia.
Qed.

Lemma readable_peek w start length i :
  readable w start length -> 0 <= i < length ->
  exists v, peek (MessageBuffer w) start i = inl v.
Proof.
  intros Hr Hi. destruct (Hr i Hi) as [v Hv].
  exists v. eapply load_Ok_peek, Hv.
Qed.

Lemma caller_view_inl r b p :
  caller_view r = inl (b, p) ->
  exists w', r = Ok tt w' /\ buffer_contents w' = b /\ port_writes w' = p.
Proof.
  destruct r as [[] w'|e]; cbn [caller_view]; intros H; [|discriminate].
  inversion H. eauto.
Qed.

(** [WriteMessage] returns whenever the range it is given can be read. *)
Lemma WriteMessage_returns start length segment w :
  readable w start length ->
  (has_flag segment End = true -> 1 <= length) ->
  exists w', WriteMessage start length segment w = Ok tt w'.
Proof.
  intros Hr Hend.
  pose proof (WriteMessage_caller_view start length segment w) as Hv.
  unfold WriteMessage_view in Hv.
  destruct (read_range_readable (MessageBuffer w) start
              (Z.to_nat ((if has_flag segment End then length - 1 else length) - 0)) 0)
    as [body Hbody].
  { intros i Hi. apply (readable_peek w start length); [exact Hr|].
    destruct (has_flag segment End); lia. }
  rewrite Hbody in Hv.
  destruct (has_flag segment End).
  - destruct (readable_peek w start length (length - 1) Hr) as [v Hp];
      [specialize (Hend eq_refl); lia|].
    rewrite Hp in Hv.
    apply caller_view_inl in Hv as (w' & E & _). eauto.
  - apply caller_view_inl in Hv as (w' & E & _). eauto.
Qed.

(** C7.  For every range of three bytes [b0, b1, b2] (in the staging buffer
    or in another array) and whatever the line controller reports,
    [WriteMessage(range, 3, Complete)] returns, having sent to the transmit
    ports, in this order: the frame-start command 0x14, once; [b0] and [b1]
    to the data port; the command 0x0C and then [b2]; the command 0x03 and
    then a zero byte.  When it returns, all 1024 bytes of the staging buffer
    are zero. *)
Theorem WriteMessage_complete_three_bytes start w b0 b1 b2 :
  load start 0 w = Ok b0 w ->
  load start 1 w = Ok b1 w ->
  load start 2 w = Ok b2 w ->
  exists w' sent,
    WriteMessage start 3 Complete w = Ok tt w' /\
    port_writes w' = port_writes w ++ sent /\
    sent = [Wr DLC_Transmit_Command 0x14;
            Wr DLC_Transmit_FIFO b0; Wr DLC_Transmit_FIFO b1;
            Wr DLC_Transmit_Command 0x0C; Wr DLC_Transmit_FIFO b2;
            Wr DLC_Transmit_Command 0x03; Wr DLC_Transmit_FIFO 0x00] /\
    List.length (filter is_frame_start sent) = 1%nat /\
    buffer_contents w' = repeat 0 (Z.to_nat MessageBufferSize) /\
    (forall i, 0 <= i < MessageBufferSize -> MessageBuffer w' i = 0).
Proof.
  intros H0%load_Ok_peek H1%load_Ok_peek H2%load_Ok_peek.
  pose proof (WriteMessage_caller_view start 3 Complete w) as Hv.
  assert (Hr : read_range (MessageBuffer w) start 2 0 = inl [b0; b1]).
  { cbn [read_range]. change (0 + 1) with 1. now rewrite H0, H1. }
  unfold WriteMessage_view in Hv.
  change (has_flag Complete End) with true in Hv.
  change (3 - 1) with 2 in Hv.
  cbv beta iota zeta in Hv.
  change (Z.to_nat (2 - 0)) with 2%nat in Hv.
  rewrite Hr, H2 in Hv.
  apply caller_view_inl in Hv as (w' & E & Hb & Hp).
  exists w'. eexists. split; [exact E|].
  split; [rewrite Hp; cbn [map frame_tail]; rewrite <- !app_assoc; reflexivity|].
  split; [reflexivity|].
  split.
  - cbn. destruct b0, b1, b2; cbn; reflexivity.
  - split; [exact Hb|].
    intros i Hi. unfold buffer_contents, contents in Hb.
    assert (Hn : nth_error (map (fun i => MessageBuffer w' (Z.of_nat i))
                              (seq 0 (Z.to_nat MessageBufferSize)))
                           (Z.to_nat i)
                 = Some (MessageBuffer w' i)).
    { rewrite nth_error_map, nth_error_seq.
      replace (Z.to_nat i <? Z.to_nat MessageBufferSize)%nat with true
        by (symmetry; apply Nat.ltb_lt; lia).
      cbn. now rewrite Z2Nat.id by lia. }
    rewrite Hb, nth_error_repeat in Hn by lia. congruence.
Qed.

(** A three-byte message staged at the start of the buffer. *)
Lemma WriteMessage_complete_three_bytes_staged :
  exists w' sent,
    WriteMessage (InMessageBuffer 0) 3 Complete ramp = Ok tt w' /\
    port_writes w' = port_writes ramp ++ sent /\
    sent = [Wr DLC_Transmit_Command 0x14;
            Wr DLC_Transmit_FIFO 0; Wr DLC_Transmit_FIFO 1;
            Wr DLC_Transmit_Command 0x0C; Wr DLC_Transmit_FIFO 2;
            Wr DLC_Transmit_Command 0x03; Wr DLC_Transmit_FIFO 0x00] /\
    List.length (filter is_frame_start sent) = 1%nat /\
    buffer_contents w' = repeat 0 (Z.to_nat MessageBufferSize) /\
    (forall i, 0 <= i < MessageBufferSize -> MessageBuffer w' i = 0).
Proof.
  apply (WriteMessage_complete_three_bytes (InMessageBuffer 0) ramp 0 1 2);
    reflexivity.
Defined.

(** C10.  With a segment that includes End: given an array of exactly
    [length >= 1] bytes, [WriteMessage] returns, so that every index at which
    it read the array is one of [0 .. length-1] (any other read is a fault);
    given [length = 0], it reads its source at index [-1], outside the array
    (or the staging buffer) the source begins. *)
Theorem WriteMessage_end_needs_a_byte a segment w :
  has_flag segment End = true ->
  (1 <= Z.of_nat (List.length a) ->
   exists w',
     WriteMessage (InArray a 0) (Z.of_nat (List.length a)) segment w
     = Ok tt w') /\
  WriteMessage (InArray a 0) 0 segment w = Fault (OutOfBounds (-1)) /\
  WriteMessage (InMessageBuffer 0) 0 segment w = Fault (OutOfBounds (-1)).
Proof.
  intros Hend. split; [|split].
  - intros Hlen. apply WriteMessage_returns; [|auto].
    apply readable_array; lia.
  - pose proof (WriteMessage_caller_view (InArray a 0) 0 segment w) as Hv.
    assert (E : WriteMessage_view (InArray a 0) 0 segment
                  (MessageBuffer w) (port_writes w)
                = inr (OutOfBounds (-1))).
    { unfold WriteMessage_view. rewrite Hend. reflexivity. }
    rewrite E in Hv.
    destruct (WriteMessage (InArray a 0) 0 segment w);
      cbn [caller_view] in Hv; congruence.
  - pose proof (WriteMessage_caller_view (InMessageBuffer 0) 0 segment w) as Hv.
    assert (E : WriteMessage_view (InMessageBuffer 0) 0 segment
                  (MessageBuffer w) (port_writes w)
                = inr (OutOfBounds (-1))).
    { unfold WriteMessage_view. rewrite Hend. reflexivity. }
    rewrite E in Hv.
    destruct (WriteMessage (InMessageBuffer 0) 0 segment w);
      cbn [caller_view] in Hv; congruence.
Qed.

(** An eight-byte frame sent complete, and an empty one. *)
Lemma WriteMessage_end_needs_a_byte_frame :
  (exists w',
     WriteMessage (InArray [0x6C; 0xF0; 0x10; 0x60; 0; 0; 0; 1] 0) 8
       Complete idle
     = Ok tt w') /\
  WriteMessage (InArray [0x6C; 0xF0; 0x10; 0x60; 0; 0; 0; 1] 0) 0 Complete idle
  = Fault (OutOfBounds (-1)) /\
  WriteMessage (InMessageBuffer 0) 0 Complete idle = Fault (OutOfBounds (-1)).
Proof.
  destruct (WriteMessage_end_needs_a_byte
              [0x6C; 0xF0; 0x10; 0x60; 0; 0; 0; 1] Complete idle eq_refl)
    as [Hin Hout].
  split; [|exact Hout].
  apply Hin. cbn. lia.
Defined.

(** C5, as amended.  What [WriteMessage] leaves for its caller (the staging
    buffer and the bytes and commands sent, or the fault) is the same in any
    two runs that begin with the same staging buffer and the same bytes
    sent, whatever the line controller reports in either: when the back-off
    after a byte uses up its 250 rounds the function goes on with the next
    byte, and nothing tells the caller. *)
Theorem WriteMessage_blind_to_status start length segment w1 w2 :
  MessageBuffer w1 = MessageBuffer w2 ->
  port_writes w1 = port_writes w2 ->
  caller_view (WriteMessage start length segment w1) =
  caller_view (WriteMessage start length segment w2).
Proof.
  intros Hb Hp. rewrite !WriteMessage_caller_view. now rewrite Hb, Hp.
Qed.

(** The transmit buffer full at every check, against an idle bus. *)
Lemma WriteMessage_blind_to_status_full_or_idle :
  caller_view (WriteMessage (InArray [0x6C; 0xF0] 0) 2 Middle tx_full) =
  caller_view (WriteMessage (InArray [0x6C; 0xF0] 0) 2 Middle idle).
Proof.
  apply WriteMessage_blind_to_status; reflexivity.
Defined.

(** C5 as stated fails.  Sending one byte with the transmit buffer reported
    full at every check, the back-off after the byte runs its 250 rounds and
    ends with the status still 3; on an idle bus it does not run at all.
    [WriteMessage] returns in both, and its caller is left with the same
    staging buffer and the same bytes sent. *)
Lemma WriteMessage_stall_unreported :
  backoff_exhausted tx_full /\
  post (s <- read_DLC_Status ;; backoff (Z.land s 0x03)) tx_full
       (fun r _ => r = (3, 250)) /\
  post (s <- read_DLC_Status ;; backoff (Z.land s 0x03)) idle
       (fun r _ => r = (0, 0)) /\
  post (WriteMessage (InArray [0x6C] 0) 1 Middle) tx_full (fun _ _ => True) /\
  post (WriteMessage (InArray [0x6C] 0) 1 Middle) idle (fun _ _ => True) /\
  caller_view (WriteMessage (InArray [0x6C] 0) 1 Middle tx_full) =
  caller_view (WriteMessage (InArray [0x6C] 0) 1 Middle idle).
Proof.
  split; [intros k _; right; reflexivity|].
  split; [vm_compute; reflexivity|].
  split; [vm_compute; reflexivity|].
  split; [vm_compute; exact I|].
  split; [vm_compute; exact I|].
  rewrite !WriteMessage_caller_view. reflexivity.
Qed.

(** C4.  Whatever the four bytes, [SendToolPresent] writes its local array
    of 7 elements at index 7, outside it; nothing has gone to the transmit
    engine by then. *)
Theorem SendToolPresent_out_of_bounds b1 b2 b3 b4 w :
  SendToolPresent b1 b2 b3 b4 w = Fault (OutOfBounds 7).
Proof.
  unfold SendToolPresent, bind.
  (* toolPresent[4], [5] and [6] are inside the array of 7 elements *)
  change (set_local [0x8C; 0xFE; 0xF0; 0x3F; 0x00; 0x00; 0x00] 4 b1 w)
    with (Ok [0x8C; 0xFE; 0xF0; 0x3F; b1; 0x00; 0x00] w).
  change (set_local [0x8C; 0xFE; 0xF0; 0x3F; b1; 0x00; 0x00] 5 b2 w)
    with (Ok [0x8C; 0xFE; 0xF0; 0x3F; b1; b2; 0x00] w).
  change (set_local [0x8C; 0xFE; 0xF0; 0x3F; b1; b2; 0x00] 6 b3 w)
    with (Ok [0x8C; 0xFE; 0xF0; 0x3F; b1; b2; b3] w).
  (* toolPresent[7] is not *)
  change (set_local [0x8C; 0xFE; 0xF0; 0x3F; b1; b2; b3] 7 b4 w)
    with (@Fault (list Z) (OutOfBounds 7)).
  reflexivity.
Qed.

(** ** [ReadMessage] *)

(** The state after the status register was read in [w]. *)
Lemma read_DLC_Status_eq w :
  exists w0,
    read_DLC_Status w = Ok (to_byte (status_tape w (status_pos w))) w0 /\
    MessageBuffer w0 = MessageBuffer w /\
    rx_tape w0 = rx_tape w /\ rx_pos w0 = rx_pos w /\
    status_tape w0 = status_tape w /\ status_pos w0 = S (status_pos w) /\
    port_writes w0 = port_writes w.
Proof.
  eexists. split; [reflexivity|]. repeat split.
Qed.

Lemma ReadMessage_body_poll fuel length cc w :
  length <> 25 ->
  ReadMessage_body fuel length cc w =
  (_ <- read_DLC_Status ;;
   ReadMessage_switch fuel length cc (rx_status_at w (status_pos w))) w.
Proof.
  intros H25%Z.eqb_neq. unfold ReadMessage_body. rewrite H25. reflexivity.
Qed.

Lemma ReadMessage_switch_code fuel length cc st :
  st = 5 \/ st = 6 \/ st = 7 ->
  ReadMessage_switch fuel length cc st =
  (code <- read_DLC_Receive_FIFO ;;
   write_reg DLC_Transmit_Command 0x02 ;;
   if length =? 0
   then ret (Next (length, code))
   else if Z.land code 0x30 =? 0x30
        then ret (Return (0, code, 2))
        else ret (Return (length, code, 1))).
Proof. intros [-> | [-> | ->]]; reflexivity. Qed.

Lemma take_completion_code_ok w :
  exists w1,
    take_completion_code w = Ok (to_byte (rx_tape w (rx_pos w))) w1.
Proof. eexists. reflexivity. Qed.

Lemma ReadMessage_body_code fuel length cc w :
  length <> 25 ->
  rx_status_at w (status_pos w) = 5 \/
  rx_status_at w (status_pos w) = 6 \/
  rx_status_at w (status_pos w) = 7 ->
  ReadMessage_body fuel length cc w =
  (code <- take_completion_code ;;
   if length =? 0
   then ret (Next (length, code))
   else if Z.land code 0x30 =? 0x30
        then ret (Return (0, code, 2))
        else ret (Return (length, code, 1))) w.
Proof.
  intros H25 Hst.
  rewrite (ReadMessage_body_poll fuel length cc w H25).
  rewrite (ReadMessage_switch_code fuel length cc _ Hst).
  reflexivity.
Qed.

Lemma ReadMessage_loop_step fuel n length cc w r w1 :
  ReadMessage_body fuel length cc w = Ok r w1 ->
  ReadMessage_loop fuel (S n) length cc w =
  match r with
  | Next (l, c) => (ScratchWatchdog ;; ReadMessage_loop fuel n l c) w1
  | Return x => Ok (Return x) w1
  end.
Proof.
  intros H. cbn [ReadMessage_loop]. unfold bind at 1. rewrite H.
  destruct r as [[l c]|x]; reflexivity.
Qed.

Lemma ScratchWatchdog_ok w :
  exists w', ScratchWatchdog w = Ok tt w' /\ silent w w'.
Proof.
  destruct (post_ok _ _ _ (post_ScratchWatchdog w)) as ([] & w' & E & H).
  eauto.
Qed.

(** A run of [k] turns that falls through, followed by [m] more turns, is
    the run of [k + m] turns. *)
Lemma ReadMessage_loop_app fuel :
  forall k m length cc w lenk cck wk,
    ReadMessage_loop fuel k length cc w = Ok (Next (lenk, cck)) wk ->
    ReadMessage_loop fuel (k + m) length cc w =
    ReadMessage_loop fuel m lenk cck wk.
Proof.
  induction k as [|k IH]; intros m length cc w lenk cck wk H.
  - injection H as <- <- <-. reflexivity.
  - cbn [Nat.add ReadMessage_loop] in *. unfold bind at 1 in H.
    unfold bind at 1.
    destruct (ReadMessage_body fuel length cc w) as [[[l1 c1]|x] w1|e];
      try discriminate H.
    unfold bind in *.
    destruct (ScratchWatchdog w1) as [[] w2|e]; [|discriminate H].
    apply IH, H.
Qed.

(** C2.  Let the polling loop of [ReadMessage], called in [w], have gone
    through [k] of its 30,000 turns without returning, with [length] bytes
    buffered, and let the next turn read a completion code (the debug cap
    is not reached and the receive status is 5, 6 or 7).  The code is taken
    from the receive port and acknowledged, and then: with no byte buffered
    [ReadMessage] does not return at this turn, the loop has gone through
    [k + 1] turns with a length still 0, and what [ReadMessage] returns is
    what the remaining turns give; with at least one byte buffered
    [ReadMessage] returns 0 with read state 2 when
    [(code & 0x30) == 0x30], and the accumulated length with read state 1
    otherwise, the code being stored for the caller. *)
Theorem ReadMessage_completion_code fuel cc w k length cck wk :
  (k < Z.to_nat (30 * 1000))%nat ->
  (ScratchWatchdog ;; ReadMessage_loop fuel k 0 cc) w
  = Ok (Next (length, cck)) wk ->
  length <> 25 ->
  rx_status_at wk (status_pos wk) = 5 \/
  rx_status_at wk (status_pos wk) = 6 \/
  rx_status_at wk (status_pos wk) = 7 ->
  exists code w1,
    take_completion_code wk = Ok code w1 /\
    code = to_byte (rx_tape wk (rx_pos wk)) /\
    (length = 0 ->
     exists w2,
       (ScratchWatchdog ;; ReadMessage_loop fuel (S k) 0 cc) w
       = Ok (Next (0, code)) w2 /\
       ReadMessage fuel cc w =
       (r <- ReadMessage_loop fuel (Z.to_nat (30 * 1000) - S k) 0 code ;;
        match r with
        | Next (length, completionCode) => ret (length, completionCode, 0x0A)
        | Return x => ret x
        end) w2) /\
    (length <> 0 -> Z.land code 0x30 = 0x30 ->
     ReadMessage fuel cc w = Ok (0, code, 2) w1) /\
    (length <> 0 -> Z.land code 0x30 <> 0x30 ->
     ReadMessage fuel cc w = Ok (length, code, 1) w1).
Proof.
  intros Hk Hrun H25 Hst.
  remember (Z.to_nat (30 * 1000)) as N eqn:EN.
  destruct (ScratchWatchdog_ok w) as (w0 & Es & _).
  assert (Hpre : forall n,
             (ScratchWatchdog ;; ReadMessage_loop fuel n 0 cc) w
             = ReadMessage_loop fuel n 0 cc w0)
    by (intros n; unfold bind; rewrite Es; reflexivity).
  assert (HR : ReadMessage fuel cc w =
               match ReadMessage_loop fuel N 0 cc w0 with
               | Ok (Next (l, c)) w' => Ok (l, c, 0x0A) w'
               | Ok (Return x) w' => Ok x w'
               | Fault e => Fault e
               end).
  { unfold ReadMessage, bind. rewrite Es, <- EN.
    destruct (ReadMessage_loop fuel N 0 cc w0) as [[[l c]|x] w'|e];
      reflexivity. }
  clear EN. rewrite Hpre in Hrun.
  assert (EN : N = (k + S (N - S k))%nat) by lia.
  rewrite EN in HR at 1.
  rewrite (ReadMessage_loop_app fuel k (S (N - S k)) 0 cc w0 _ _ _ Hrun) in HR.
  rewrite Hpre, HR. clear Hpre HR EN.
  destruct (take_completion_code_ok wk) as [w1 E].
  exists (to_byte (rx_tape wk (rx_pos wk))), w1.
  split; [exact E|]. split; [reflexivity|].
  pose proof (ReadMessage_body_code fuel length cck wk H25 Hst) as Hb.
  unfold bind in Hb. rewrite E in Hb.
  assert (E1 : ReadMessage_loop fuel (S k) 0 cc w0
               = ReadMessage_loop fuel 1 length cck wk)
    by (replace (S k) with (k + 1)%nat by lia;
        apply ReadMessage_loop_app; exact Hrun).
  rewrite E1. clear E1.
  repeat split.
  - intros ->. cbn in Hb.
    destruct (ScratchWatchdog_ok w1) as (w2 & Es2 & _).
    exists w2.
    rewrite !(ReadMessage_loop_step fuel _ 0 cck wk _ w1 Hb).
    unfold bind. rewrite Es2. split; [reflexivity|].
    destruct (ReadMessage_loop fuel (N - S k) 0
                (to_byte (rx_tape wk (rx_pos wk))) w2) as [[[l c]|x] w'|e];
      reflexivity.
  - intros H0%Z.eqb_neq H30%Z.eqb_eq. rewrite H0, H30 in Hb.
    now rewrite (ReadMessage_loop_step fuel _ length cck wk _ w1 Hb).
  - intros H0%Z.eqb_neq H30%Z.eqb_neq. rewrite H0, H30 in Hb.
    now rewrite (ReadMessage_loop_step fuel _ length cck wk _ w1 Hb).
Qed.

(** A completion code 0x30 with nothing buffered, and with three bytes
    buffered. *)
Lemma ReadMessage_completion_code_0x30 :
  (exists w2,
     (ScratchWatchdog ;; ReadMessage_loop 1 1 0 0) completion_only
     = Ok (Next (0, 0x30)) w2 /\
     ReadMessage 1 0 completion_only =
     (r <- ReadMessage_loop 1 (Z.to_nat (30 * 1000) - 1) 0 0x30 ;;
      match r with
      | Next (length, completionCode) => ret (length, completionCode, 0x0A)
      | Return x => ret x
      end) w2) /\
  (exists w1, ReadMessage 1 0 suppressed_frame_of_three = Ok (0, 0x30, 2) w1) /\
  (exists w1, ReadMessage 1 0 frame_of_three = Ok (3, 0x40, 1) w1).
Proof.
  split; [|split].
  - edestruct (ReadMessage_completion_code 1 0 completion_only 0 0 0)
      as (code & w1 & _ & Hc & H0 & _);
      [lia | reflexivity | lia | right; right; reflexivity|].
    cbn in Hc. subst code. apply H0. reflexivity.
  - assert (Hrun : exists wk,
              (ScratchWatchdog ;; ReadMessage_loop 1 3 0 0)
                suppressed_frame_of_three = Ok (Next (3, 0)) wk /\
              rx_status_at wk (status_pos wk) = 7 /\
              to_byte (rx_tape wk (rx_pos wk)) = 0x30).
    { vm_compute. eexists. repeat split. }
    destruct Hrun as (wk & Hrun & Hst & Hcode).
    destruct (ReadMessage_completion_code 1 0 suppressed_frame_of_three 3 3 0 wk)
      as (code & w1 & _ & Hc & _ & H3 & _);
      [lia | exact Hrun | lia | right; right; exact Hst|].
    rewrite Hcode in Hc. subst code. exists w1.
    apply H3; [lia | reflexivity].
  - assert (Hrun : exists wk,
              (ScratchWatchdog ;; ReadMessage_loop 1 3 0 0) frame_of_three
              = Ok (Next (3, 0)) wk /\
              rx_status_at wk (status_pos wk) = 6 /\
              to_byte (rx_tape wk (rx_pos wk)) = 0x40).
    { vm_compute. eexists. repeat split. }
    destruct Hrun as (wk & Hrun & Hst & Hcode).
    destruct (ReadMessage_completion_code 1 0 frame_of_three 3 3 0 wk)
      as (code & w1 & _ & Hc & _ & _ & H3);
      [lia | exact Hrun | lia | right; left; exact Hst|].
    rewrite Hcode in Hc. subst code. exists w1.
    apply H3; [lia | discriminate].
Defined.

(** C3.  The drain loop ends after one read of the status register, in any
    state, without a read of the receive port: its test,
    [*DLC_Status & (0xE0 == 0x60)], is 0 whatever the status.  So, with the
    line controller reporting receive overflow at every check and bytes
    waiting in its receive buffer, [ReadMessage] returns 0 with read state
    0x0B and the staging buffer as it was, but it has read the status
    register twice and the receive port not once: nothing is drained while
    the overflow lasts.  [TryReadNextByte], which has the same loop, does
    the same. *)
Theorem ReadMessage_overflow_not_drained rx fuel cc data :
  (forall w, exists w0,
     drain_overflow (S fuel) w = Ok tt w0 /\
     status_pos w0 = S (status_pos w) /\ rx_pos w0 = rx_pos w) /\
  exists w' w'',
    ReadMessage (S fuel) cc (rx_overflow rx) = Ok (0, cc, 0x0B) w' /\
    rx_status_at w' 0 = 3 /\ rx_status_at w' 1 = 3 /\
    status_pos w' = 2%nat /\
    rx_pos w' = 0%nat /\ rx_reads w' = [] /\
    (forall i, MessageBuffer w' i = MessageBuffer (rx_overflow rx) i) /\
    TryReadNextByte (S fuel) data cc (rx_overflow rx)
    = Ok (0, 0, 0, Overflow) w'' /\
    rx_pos w'' = 0%nat /\ rx_reads w'' = [].
Proof.
  split.
  - intros w. unfold drain_overflow. cbn [while_loop].
    unfold bind, read_DLC_Status, ret.
    change (Z.b2z (0xE0 =? 0x60)) with 0. rewrite Z.land_0_r.
    cbn [Z.eqb negb]. eexists. repeat split.
  - eexists. eexists.
    split; [vm_compute; reflexivity|].
    repeat split.
Qed.

(** What a turn of the [switch] that goes on with the loop has done. *)
Lemma ReadMessage_switch_Next fuel length cc st w0 len' cc' w' :
  ReadMessage_switch fuel length cc st w0 = Ok (Next (len', cc')) w' ->
  rx_tape w' = rx_tape w0 /\ status_tape w' = status_tape w0 /\
  status_pos w' = status_pos w0 /\
  (((st = 1 \/ st = 2 \/ st = 4) /\ len' = length + 1 /\
    MessageBuffer w' =
    upd (MessageBuffer w0) length (to_byte (rx_tape w0 (rx_pos w0))))
   \/
   (~ (st = 1 \/ st = 2 \/ st = 4) /\ len' = length /\
    MessageBuffer w' = MessageBuffer w0)).
Proof.
  intros H.
  destruct st as [|[[[?|?|]|[?|?|]|]|[[?|?|]|[?|?|]|]|]|?];
    cbv beta iota delta [ReadMessage_switch] in H;
    unfold bind, WasteTime, nop, read_DLC_Receive_FIFO, store_MessageBuffer,
      write_reg, ret, log in H;
    cbn [MessageBuffer Watchdog2_cell status_tape status_pos rx_tape rx_pos
           events] in H;
    try (destruct (drain_overflow fuel w0); discriminate H);
    repeat match type of H with
           | context [if ?c then _ else _] => destruct c
           end;
    try discriminate H;
    injection H as <- <- <-;
    cbn [MessageBuffer Watchdog2_cell status_tape status_pos rx_tape rx_pos
           events];
    (repeat split;
     first [ left; repeat split; auto; fail
           | right; repeat split;
             try (intros [E|[E|E]]; discriminate E); reflexivity ]).
Qed.

Lemma ReadMessage_body_Next fuel length cc w len' cc' w' :
  ReadMessage_body fuel length cc w = Ok (Next (len', cc')) w' ->
  rx_tape w' = rx_tape w /\ status_tape w' = status_tape w /\
  (((rx_status_at w (status_pos w) = 1 \/
     rx_status_at w (status_pos w) = 2 \/
     rx_status_at w (status_pos w) = 4) /\
    len' = length + 1 /\
    MessageBuffer w' =
    upd (MessageBuffer w) length (to_byte (rx_tape w (rx_pos w))))
   \/
   (~ (rx_status_at w (status_pos w) = 1 \/
       rx_status_at w (status_pos w) = 2 \/
       rx_status_at w (status_pos w) = 4) /\
    len' = length /\ MessageBuffer w' = MessageBuffer w)).
Proof.
  intros H.
  destruct (Z.eq_dec length 25) as [->|H25]; [discriminate H|].
  rewrite (ReadMessage_body_poll fuel length cc w H25) in H.
  unfold bind in H.
  destruct (read_DLC_Status_eq w) as (w0 & E & Hb & Ht & Hp & Hs & _).
  rewrite E in H.
  apply ReadMessage_switch_Next in H as (H1 & H2 & _ & [H3|H3]).
  - split; [congruence|]. split; [congruence|]. left.
    destruct H3 as (Hst & Hl & Hm). repeat split; try assumption.
    rewrite Hm, Hb, Ht, Hp. reflexivity.
  - split; [congruence|]. split; [congruence|]. right.
    destruct H3 as (Hn & Hl & Hm). repeat split; [exact Hn | congruence..].
Qed.

(** Turns of the loop that go on never touch a byte already buffered. *)
Lemma ReadMessage_loop_Next fuel :
  forall n length cc w len' cc' w',
    ReadMessage_loop fuel n length cc w = Ok (Next (len', cc')) w' ->
    length <= len' /\
    rx_tape w' = rx_tape w /\ status_tape w' = status_tape w /\
    forall i, i < length -> MessageBuffer w' i = MessageBuffer w i.
Proof.
  induction n as [|n IH]; intros length cc w len' cc' w' H.
  - injection H as <- <- <-. repeat split; lia.
  - cbn [ReadMessage_loop] in H. unfold bind at 1 in H.
    destruct (ReadMessage_body fuel length cc w) as [[[l1 c1]|x] w1|e] eqn:Eb;
      try discriminate H.
    unfold bind in H.
    destruct (ScratchWatchdog_ok w1) as (w2 & Es & Hs).
    rewrite Es in H.
    apply IH in H as (Hle & Hrx & Hst & Hmem).
    apply ReadMessage_body_Next in Eb as (Hrx1 & Hst1 & Hcase).
    destruct Hs as [Hb2 _ _ Hrx2 Hst2].
    split; [destruct Hcase as [(_ & -> & _)|(_ & -> & _)]; lia|].
    split; [congruence|]. split; [congruence|].
    intros i Hi. rewrite Hmem, Hb2.
    + destruct Hcase as [(_ & _ & ->)|(_ & _ & ->)];
        [apply upd_other; lia | reflexivity].
    + destruct Hcase as [(_ & -> & _)|(_ & -> & _)]; lia.
Qed.

(** A run of [k + m] turns that falls through is a run of [k] turns that
    falls through, followed by one of [m] turns. *)
Lemma ReadMessage_loop_split fuel :
  forall k m length cc w r w',
    ReadMessage_loop fuel (k + m) length cc w = Ok (Next r) w' ->
    exists lenk cck wk,
      ReadMessage_loop fuel k length cc w = Ok (Next (lenk, cck)) wk /\
      ReadMessage_loop fuel m lenk cck wk = Ok (Next r) w'.
Proof.
  induction k as [|k IH]; intros m length cc w r w' H.
  - exists length, cc, w. split; [reflexivity | exact H].
  - cbn [Nat.add ReadMessage_loop] in *. unfold bind at 1 in H.
    unfold bind at 1.
    destruct (ReadMessage_body fuel length cc w) as [[[l1 c1]|x] w1|e];
      try discriminate H.
    unfold bind in *.
    destruct (ScratchWatchdog w1) as [[] w2|e]; [|discriminate H].
    apply IH, H.
Qed.

(** C8.  If the polling loop of [ReadMessage] uses up its 30,000 turns
    without returning, [ReadMessage] returns the length accumulated with
    read state 0x0A, and the staging buffer holds every byte that was
    appended: for each turn that found a data status (1, 2 or 4), begun at
    buffer length [lenk], the byte read from the receive port in that turn
    is at position [lenk] of the buffer at the return, and [lenk] is below
    the length returned. *)
Theorem ReadMessage_timeout fuel cc w :
  falls_through
    ((ScratchWatchdog ;;
      ReadMessage_loop fuel (Z.to_nat (30 * 1000)) 0 cc) w) ->
  exists len cc' w',
    (ScratchWatchdog ;;
     ReadMessage_loop fuel (Z.to_nat (30 * 1000)) 0 cc) w
    = Ok (Next (len, cc')) w' /\
    ReadMessage fuel cc w = Ok (len, cc', 0x0A) w' /\
    forall k lenk cck wk,
      (k < Z.to_nat (30 * 1000))%nat ->
      (ScratchWatchdog ;; ReadMessage_loop fuel k 0 cc) w
      = Ok (Next (lenk, cck)) wk ->
      rx_status_at wk (status_pos wk) = 1 \/
      rx_status_at wk (status_pos wk) = 2 \/
      rx_status_at wk (status_pos wk) = 4 ->
      lenk < len /\
      MessageBuffer w' lenk = to_byte (rx_tape wk (rx_pos wk)).
Proof.
  unfold ReadMessage.
  remember (Z.to_nat (30 * 1000)) as N eqn:EN. clear EN.
  unfold bind at 1 2 3 4. unfold falls_through.
  destruct (ScratchWatchdog_ok w) as (w0 & Es & _). rewrite Es.
  destruct (ReadMessage_loop fuel N 0 cc w0) as [[[len cc']|x] w'|e] eqn:El;
    try contradiction.
  intros _. exists len, cc', w'.
  split; [reflexivity|]. split; [reflexivity|].
  intros k lenk cck wk Hk Hrun Hdata.
  unfold bind in Hrun. rewrite Es in Hrun.
  replace N with (k + S (N - S k))%nat in El by lia.
  apply ReadMessage_loop_split in El as (lk & ck & wk' & Ek & Em).
  rewrite Hrun in Ek. injection Ek as <- <- <-.
  cbn [ReadMessage_loop] in Em. unfold bind at 1 in Em.
  destruct (ReadMessage_body fuel lenk cck wk) as [[[l1 c1]|x] w1|e] eqn:Eb;
    try discriminate Em.
  unfold bind in Em.
  destruct (ScratchWatchdog_ok w1) as (w2 & Es2 & [Hb2 _ _ _ _]).
  rewrite Es2 in Em.
  apply ReadMessage_loop_Next in Em as (Hle & _ & _ & Hmem).
  apply ReadMessage_body_Next in Eb as (_ & _ & [(_ & -> & Hm)|(Hn & _)]);
    [|contradiction].
  split; [lia|].
  rewrite Hmem, Hb2, Hm by lia. apply upd_same.
Qed.

(** Three bytes arrive and the bus goes silent: the loop runs out of turns
    with the three bytes buffered. *)
Lemma ReadMessage_timeout_after_three_bytes :
  exists len cc' w',
    (ScratchWatchdog ;;
     ReadMessage_loop 1 (Z.to_nat (30 * 1000)) 0 0) three_then_silence
    = Ok (Next (len, cc')) w' /\
    ReadMessage 1 0 three_then_silence = Ok (len, cc', 0x0A) w' /\
    forall k lenk cck wk,
      (k < Z.to_nat (30 * 1000))%nat ->
      (ScratchWatchdog ;; ReadMessage_loop 1 k 0 0) three_then_silence
      = Ok (Next (lenk, cck)) wk ->
      rx_status_at wk (status_pos wk) = 1 \/
      rx_status_at wk (status_pos wk) = 2 \/
      rx_status_at wk (status_pos wk) = 4 ->
      lenk < len /\
      MessageBuffer w' lenk = to_byte (rx_tape wk (rx_pos wk)).
Proof.
  apply (ReadMessage_timeout 1 0 three_then_silence).
  vm_compute. exact I.
Defined.

(** ** Checksums *)

Lemma to_byte_id v : is_byte v -> to_byte v = v.
Proof.
  intros Hv. unfold to_byte, is_byte in *.
  change 0xFF with (Z.ones 8). rewrite Z.land_ones by lia.
  apply Z.mod_small. exact Hv.
Qed.

Lemma post_load_peek start i w v :
  peek (MessageBuffer w) start i = inl v ->
  post (load start i) w (fun v' w' => v' = v /\ w' = w).
Proof.
  intros H. unfold post. rewrite load_peek, H. auto.
Qed.

Lemma checksum_loop start :
  forall n index acc w bytes,
    read_range (MessageBuffer w) start n index = inl bytes ->
    Forall is_byte bytes ->
    acc mod 2 ^ 16 = acc ->
    post (for_loop n index acc (add_payload_byte start)) w
         (fun r w' => r = (acc + sum_bytes bytes) mod 2 ^ 16 /\ silent w w').
Proof.
  induction n as [|n IH]; intros index acc w bytes Hr Hb Hacc.
  - injection Hr as <-. apply post_ret. cbn [sum_bytes fold_right].
    rewrite Z.add_0_r. split; [now symmetry | apply silent_refl].
  - cbn [read_range] in Hr.
    destruct (peek (MessageBuffer w) start index) as [v|e] eqn:Ev;
      [|discriminate].
    destruct (read_range (MessageBuffer w) start n (index + 1))
      as [l|e] eqn:El; [|discriminate].
    injection Hr as <-.
    apply Forall_cons_iff in Hb as [Hv Hl].
    cbn [for_loop]. apply post_bind. unfold add_payload_byte at 1.
    apply post_bind.
    eapply post_weaken; [apply (post_load_peek _ _ _ _ Ev)|].
    intros v' w0 [-> ->]. cbv zeta. apply post_bind.
    eapply post_weaken with (P := fun _ w' => silent w w').
    { destruct (Z.rem index 100 =? 0);
        [apply post_ScratchWatchdog | apply post_ret, silent_refl]. }
    intros u w1 Hs. apply post_ret.
    eapply post_weaken.
    + apply (IH (index + 1) _ w1 l); [|exact Hl|].
      * destruct Hs as [-> _ _ _ _]. exact El.
      * unfold to_ushort. apply Z.mod_mod. lia.
    + intros r w2 [-> Hs2]. split; [|exact (silent_trans _ _ _ Hs Hs2)].
      unfold to_ushort. rewrite (to_byte_id v Hv).
      cbn [sum_bytes fold_right]. fold (sum_bytes l).
      rewrite Zplus_mod_idemp_l. f_equal. lia.
Qed.

Lemma AddReadPayloadChecksum_sum start length w bytes :
  read_range (MessageBuffer w) start (Z.to_nat length) 0 = inl bytes ->
  Forall is_byte bytes ->
  exists w',
    AddReadPayloadChecksum start length w
    = Ok (sum_bytes bytes mod 2 ^ 16) w'.
Proof.
  intros Hr Hb.
  assert (H : post (AddReadPayloadChecksum start length) w
                (fun r _ => r = sum_bytes bytes mod 2 ^ 16)).
  { unfold AddReadPayloadChecksum. apply post_bind.
    eapply post_weaken; [apply post_ScratchWatchdog|].
    intros u w0 [Hm _ _ _ _]. apply post_bind. unfold for_range.
    rewrite Z.sub_0_r.
    eapply post_weaken;
      [apply (checksum_loop start _ 0 0 w0 bytes);
       [rewrite Hm; exact Hr | exact Hb | reflexivity]|].
    intros r w1 [-> _]. apply post_bind.
    eapply post_weaken; [apply post_ScratchWatchdog|].
    intros u' w2 _. apply post_ret. reflexivity. }
  apply post_ok in H as (r & w' & E & ->). eauto.
Qed.

Lemma StartChecksum_sum w :
  StartChecksum w =
  Ok ((MessageBuffer w 4 + MessageBuffer w 5 + MessageBuffer w 6 +
       MessageBuffer w 7 + MessageBuffer w 8 + MessageBuffer w 9)
      mod 2 ^ 16) w.
Proof.
  unfold StartChecksum, for_range.
  change (Z.to_nat (10 - 4)) with 6%nat.
  cbn [for_loop]. unfold bind, load_MessageBuffer, ret, to_ushort.
  cbn [Z.add Pos.add Pos.succ Z.leb Z.ltb Z.compare Pos.compare
         Pos.compare_cont MessageBufferSize andb].
  f_equal.
  repeat (rewrite Zplus_mod_idemp_l || rewrite <- Z.add_assoc).
  f_equal; lia.
Qed.

(** C9.  [AddReadPayloadChecksum] returns the sum of the bytes of the range
    it is given, modulo 2^16; it returns 0 for an empty range and 0x01FE for
    the two bytes 0xFF, 0xFF; [StartChecksum] returns the sum, modulo 2^16,
    of the bytes 4 to 9 of the staging buffer. *)
Theorem checksum_is_sum_mod_2_16 start length w bytes :
  read_range (MessageBuffer w) start (Z.to_nat length) 0 = inl bytes ->
  Forall is_byte bytes ->
  (exists w',
     AddReadPayloadChecksum start length w
     = Ok (sum_bytes bytes mod 2 ^ 16) w') /\
  (exists w', AddReadPayloadChecksum start 0 w = Ok 0 w') /\
  (exists w',
     AddReadPayloadChecksum (InArray [0xFF; 0xFF] 0) 2 w = Ok 0x01FE w') /\
  StartChecksum w =
  Ok (sum_bytes (map (MessageBuffer w) [4; 5; 6; 7; 8; 9]) mod 2 ^ 16) w.
Proof.
  intros Hr Hb. split; [|split; [|split]].
  - exact (AddReadPayloadChecksum_sum start length w bytes Hr Hb).
  - apply (AddReadPayloadChecksum_sum start 0 w []); [reflexivity | constructor].
  - apply (AddReadPayloadChecksum_sum (InArray [0xFF; 0xFF] 0) 2 w [0xFF; 0xFF]);
      [reflexivity|].
    repeat constructor; unfold is_byte; lia.
  - rewrite StartChecksum_sum. cbn [map sum_bytes fold_right].
    do 2 f_equal. lia.
Qed.

(** A payload of 300 bytes 0xFF: the sum, 76500, wraps to 10964. *)
Lemma checksum_is_sum_mod_2_16_wraps :
  (exists w',
     AddReadPayloadChecksum (InArray (repeat 0xFF 300) 0) 300 idle
     = Ok 10964 w') /\
  (exists w', AddReadPayloadChecksum (InArray (repeat 0xFF 300) 0) 0 idle
              = Ok 0 w') /\
  (exists w',
     AddReadPayloadChecksum (InArray [0xFF; 0xFF] 0) 2 idle = Ok 0x01FE w') /\
  StartChecksum idle =
  Ok (sum_bytes (map (MessageBuffer idle) [4; 5; 6; 7; 8; 9]) mod 2 ^ 16) idle.
Proof.
  apply (checksum_is_sum_mod_2_16 (InArray (repeat 0xFF 300) 0) 300 idle
           (repeat 0xFF 300)).
  - vm_compute. reflexivity.
  - apply Forall_forall. intros x Hx. apply repeat_spec in Hx. subst x.
    unfold is_byte. lia.
Defined.

(** * Further properties of the code *)

(** ** Steps that read nothing from the line controller *)

Lemma undisturbed_refl w : undisturbed w w.
Proof. now constructor. Qed.

Lemma undisturbed_trans w1 w2 w3 :
  undisturbed w1 w2 -> undisturbed w2 w3 -> undisturbed w1 w3.
Proof.
  intros [a1 b1 c1 d1 e1 f1] [a2 b2 c2 d2 e2 f2].
  constructor; congruence.
Qed.

Lemma undisturbed_silent w w' : undisturbed w w' -> silent w w'.
Proof. intros [a b c d e f]. now constructor. Qed.

Lemma ScratchWatchdog_undisturbed w :
  exists w',
    ScratchWatchdog w = Ok tt w' /\ undisturbed w w' /\
    services w' = S (services w).
Proof.
  eexists. split; [reflexivity|]. split; [constructor; reflexivity | reflexivity].
Qed.

Lemma WasteTime_undisturbed w :
  exists w',
    WasteTime w = Ok tt w' /\ undisturbed w w' /\ services w' = services w.
Proof.
  eexists. split; [reflexivity|]. split; [constructor; reflexivity | reflexivity].
Qed.

Lemma post_ScratchWatchdog_undisturbed w :
  post ScratchWatchdog w
       (fun _ w' => undisturbed w w' /\ services w' = S (services w)).
Proof.
  destruct (ScratchWatchdog_undisturbed w) as (w' & E & H).
  eapply ok_post; eauto.
Qed.

Lemma post_WasteTime_undisturbed w :
  post WasteTime w
       (fun _ w' => undisturbed w w' /\ services w' = services w).
Proof.
  destruct (WasteTime_undisturbed w) as (w' & E & H).
  eapply ok_post; eauto.
Qed.

Lemma buffer_only_services w w' :
  buffer_only w w' -> services w' = services w /\ port_writes w' = port_writes w.
Proof.
  intros (He & _). unfold services, port_writes. now rewrite He.
Qed.

(** ** The block checksum field *)

Lemma split_u16 c :
  to_byte (Z.shiftr (Z.land c 0xFF00) 8) * 256 + to_byte (Z.land c 0xFF)
  = c mod 2 ^ 16.
Proof.
  unfold to_byte.
  rewrite Z.shiftr_land. change (Z.shiftr 0xFF00 8) with 0xFF.
  rewrite <- !Z.land_assoc. change (Z.land 0xFF 0xFF) with 0xFF.
  change 0xFF with (Z.ones 8). rewrite !Z.land_ones by lia.
  rewrite Z.shiftr_div_pow2 by lia.
  change (2 ^ 16) with (2 ^ 8 * 2 ^ 8).
  rewrite Z.rem_mul_r by lia. lia.
Qed.

Lemma to_byte_is_byte v : is_byte (to_byte v).
Proof.
  unfold to_byte, is_byte. change 0xFF with (Z.ones 8).
  rewrite Z.land_ones by lia. apply Z.mod_pos_bound. lia.
Qed.

(** X1.  [SetBlockChecksum(length, checksum)], with both of its stores
    inside the staging buffer, writes two bytes at [10 + length] and
    [11 + length] that read back, big-endian, as the checksum modulo 2^16
    (the checksum itself when it is an [unsigned short]); it changes no
    other byte of the buffer and accesses no register. *)
Theorem SetBlockChecksum_round_trip length checksum w :
  0 <= 10 + length -> 11 + length < MessageBufferSize ->
  exists w',
    SetBlockChecksum length checksum w = Ok tt w' /\
    read_u16_be w' (10 + length) = checksum mod 2 ^ 16 /\
    (0 <= checksum < 2 ^ 16 -> read_u16_be w' (10 + length) = checksum) /\
    is_byte (MessageBuffer w' (10 + length)) /\
    is_byte (MessageBuffer w' (11 + length)) /\
    (forall i, i <> 10 + length -> i <> 11 + length ->
               MessageBuffer w' i = MessageBuffer w i) /\
    events w' = events w.
Proof.
  intros Hlo Hhi. unfold SetBlockChecksum.
  assert (H : post (store_MessageBuffer (10 + length)
                      (to_byte (Z.shiftr (Z.land checksum 0xFF00) 8)) ;;
                    store_MessageBuffer (11 + length)
                      (to_byte (Z.land checksum 0xFF))) w
                (fun _ w' =>
                   MessageBuffer w' =
                   upd (upd (MessageBuffer w) (10 + length)
                          (to_byte (Z.shiftr (Z.land checksum 0xFF00) 8)))
                       (11 + length) (to_byte (Z.land checksum 0xFF)) /\
                   events w' = events w)).
  { step post_store_MessageBuffer; [lia|]. intros u w1 [Hm1 (He1 & _)].
    eapply post_weaken; [apply post_store_MessageBuffer; lia|].
    intros u' w2 [Hm2 (He2 & _)]. split; congruence. }
  apply post_ok in H as ([] & w' & E & Hm & He).
  exists w'. split; [exact E|].
  assert (Hhi' : MessageBuffer w' (10 + length)
                 = to_byte (Z.shiftr (Z.land checksum 0xFF00) 8)).
  { rewrite Hm, upd_other by lia. apply upd_same. }
  assert (Hlo' : MessageBuffer w' (11 + length)
                 = to_byte (Z.land checksum 0xFF)).
  { rewrite Hm. apply upd_same. }
  assert (Hr : read_u16_be w' (10 + length) = checksum mod 2 ^ 16).
  { unfold read_u16_be.
    replace (10 + length + 1) with (11 + length) by lia.
    rewrite Hhi', Hlo'. apply split_u16. }
  split; [exact Hr|].
  split; [intros Hc; rewrite Hr; apply Z.mod_small; exact Hc|].
  split; [rewrite Hhi'; apply to_byte_is_byte|].
  split; [rewrite Hlo'; apply to_byte_is_byte|].
  split; [|exact He].
  intros i H1 H2. rewrite Hm, !upd_other by assumption. reflexivity.
Qed.

(** The checksum 0x1234 of a block of 3 bytes. *)
Lemma SetBlockChecksum_round_trip_0x1234 :
  exists w',
    SetBlockChecksum 3 0x1234 idle = Ok tt w' /\
    read_u16_be w' (10 + 3) = 0x1234 mod 2 ^ 16 /\
    (0 <= 0x1234 < 2 ^ 16 -> read_u16_be w' (10 + 3) = 0x1234) /\
    is_byte (MessageBuffer w' (10 + 3)) /\
    is_byte (MessageBuffer w' (11 + 3)) /\
    (forall i, i <> 10 + 3 -> i <> 11 + 3 ->
               MessageBuffer w' i = MessageBuffer idle i) /\
    events w' = events idle.
Proof.
  apply (SetBlockChecksum_round_trip 3 0x1234 idle).
  - lia.
  - unfold MessageBufferSize. lia.
Defined.

(** ** Checksums of parts and of copies *)

Lemma peek_ptr_add buf start k i :
  peek buf (ptr_add start k) i = peek buf start (k + i).
Proof.
  destruct start as [off|a off]; cbn [ptr_add peek];
    now rewrite Z.add_assoc.
Qed.

Lemma read_range_ext buf1 start1 buf2 start2 :
  forall n i j,
    (forall d, 0 <= d < Z.of_nat n ->
       peek buf1 start1 (i + d) = peek buf2 start2 (j + d)) ->
    read_range buf1 start1 n i = read_range buf2 start2 n j.
Proof.
  induction n as [|n IH]; intros i j H; [reflexivity|].
  cbn [read_range].
  pose proof (H 0 ltac:(lia)) as H0. rewrite !Z.add_0_r in H0. rewrite H0.
  rewrite (IH (i + 1) (j + 1)); [reflexivity|].
  intros d Hd. rewrite <- !Z.add_assoc. apply H. lia.
Qed.

Lemma read_range_ptr_add buf start k n :
  read_range buf (ptr_add start k) n 0 = read_range buf start n k.
Proof.
  apply read_range_ext. intros d _. rewrite peek_ptr_add. reflexivity.
Qed.

Lemma read_range_split buf start :
  forall n1 n2 i l,
    read_range buf start (n1 + n2) i = inl l ->
    exists l1 l2,
      l = l1 ++ l2 /\
      read_range buf start n1 i = inl l1 /\
      read_range buf start n2 (i + Z.of_nat n1) = inl l2.
Proof.
  induction n1 as [|n1 IH]; intros n2 i l H.
  - exists [], l. rewrite Z.add_0_r. auto.
  - cbn [Nat.add read_range] in *.
    destruct (peek buf start i) as [v|e]; [|discriminate].
    destruct (read_range buf start (n1 + n2) (i + 1)) as [l'|e] eqn:E;
      [|discriminate].
    injection H as <-.
    destruct (IH n2 (i + 1) l' E) as (l1 & l2 & -> & -> & H2).
    exists (v :: l1), l2. repeat split.
    rewrite <- H2. f_equal. lia.
Qed.

Lemma read_range_length buf start :
  forall n i l, read_range buf start n i = inl l -> List.length l = n.
Proof.
  induction n as [|n IH]; intros i l H.
  - injection H as <-. reflexivity.
  - cbn [read_range] in H.
    destruct (peek buf start i) as [v|e]; [|discriminate].
    destruct (read_range buf start n (i + 1)) as [l'|e] eqn:E; [|discriminate].
    injection H as <-. cbn. f_equal. eapply IH, E.
Qed.

Lemma sum_bytes_app l1 l2 : sum_bytes (l1 ++ l2) = sum_bytes l1 + sum_bytes l2.
Proof.
  induction l1 as [|x l1 IH]; cbn [app sum_bytes fold_right]; [reflexivity|].
  fold (sum_bytes (l1 ++ l2)). fold (sum_bytes l1). lia.
Qed.

Lemma sum_bytes_bounds l :
  Forall is_byte l -> 0 <= sum_bytes l <= 255 * Z.of_nat (List.length l).
Proof.
  induction 1 as [|x l Hx _ IH]; cbn [sum_bytes fold_right List.length];
    [lia|].
  fold (sum_bytes l). unfold is_byte in Hx. lia.
Qed.

(** X2.  The checksum of a range made of two consecutive parts is the sum,
    modulo 2^16, of the checksums of the parts: the checksum of a block can
    be accumulated part by part. *)
Theorem AddReadPayloadChecksum_of_parts start k m w bytes :
  0 <= k -> 0 <= m ->
  read_range (MessageBuffer w) start (Z.to_nat (k + m)) 0 = inl bytes ->
  Forall is_byte bytes ->
  exists c c1 c2 w0 w1 w2,
    AddReadPayloadChecksum start (k + m) w = Ok c w0 /\
    AddReadPayloadChecksum start k w = Ok c1 w1 /\
    AddReadPayloadChecksum (ptr_add start k) m w = Ok c2 w2 /\
    c = to_ushort (c1 + c2).
Proof.
  intros Hk Hm Hr Hb.
  replace (Z.to_nat (k + m)) with (Z.to_nat k + Z.to_nat m)%nat in Hr by lia.
  pose proof Hr as Hr0.
  apply read_range_split in Hr as (l1 & l2 & -> & H1 & H2).
  apply Forall_app in Hb as [Hb1 Hb2].
  rewrite Z.add_0_l, Z2Nat.id in H2 by exact Hk.
  rewrite <- read_range_ptr_add in H2.
  destruct (AddReadPayloadChecksum_sum start (k + m) w (l1 ++ l2)) as [w0 E0];
    [now replace (Z.to_nat (k + m)) with (Z.to_nat k + Z.to_nat m)%nat by lia
    | apply Forall_app; auto |].
  destruct (AddReadPayloadChecksum_sum start k w l1 H1 Hb1) as [w1 E1].
  destruct (AddReadPayloadChecksum_sum (ptr_add start k) m w l2 H2 Hb2)
    as [w2 E2].
  do 6 eexists. split; [exact E0|]. split; [exact E1|]. split; [exact E2|].
  unfold to_ushort. rewrite sum_bytes_app.
  now rewrite <- Zplus_mod.
Qed.

(** A payload of 300 bytes 0xFF in two parts of 100 and 200 bytes. *)
Lemma AddReadPayloadChecksum_of_parts_100_200 :
  exists c c1 c2 w0 w1 w2,
    AddReadPayloadChecksum (InArray (repeat 0xFF 300) 0) (100 + 200) idle
    = Ok c w0 /\
    AddReadPayloadChecksum (InArray (repeat 0xFF 300) 0) 100 idle = Ok c1 w1 /\
    AddReadPayloadChecksum (ptr_add (InArray (repeat 0xFF 300) 0) 100) 200 idle
    = Ok c2 w2 /\
    c = to_ushort (c1 + c2).
Proof.
  apply (AddReadPayloadChecksum_of_parts
           (InArray (repeat 0xFF 300) 0) 100 200 idle (repeat 0xFF 300)).
  - lia.
  - lia.
  - vm_compute. reflexivity.
  - apply Forall_forall. intros x Hx. apply repeat_spec in Hx. subst x.
    unfold is_byte. lia.
Defined.

(** X3.  When bytes 4 to 9 of the staging buffer are bytes, [StartChecksum]
    returns their plain sum, which is at most 1530: the header checksum never
    wraps.  It leaves the state as it is. *)
Theorem StartChecksum_never_wraps w :
  (forall i, 4 <= i < 10 -> is_byte (MessageBuffer w i)) ->
  exists c,
    StartChecksum w = Ok c w /\
    c = sum_bytes (map (MessageBuffer w) [4; 5; 6; 7; 8; 9]) /\
    0 <= c <= 1530.
Proof.
  intros Hb. rewrite StartChecksum_sum.
  pose proof (Hb 4 ltac:(lia)) as H4. pose proof (Hb 5 ltac:(lia)) as H5.
  pose proof (Hb 6 ltac:(lia)) as H6. pose proof (Hb 7 ltac:(lia)) as H7.
  pose proof (Hb 8 ltac:(lia)) as H8. pose proof (Hb 9 ltac:(lia)) as H9.
  unfold is_byte in *. eexists. split; [reflexivity|].
  cbn [map sum_bytes fold_right].
  rewrite Z.mod_small by lia. split; lia.
Qed.

(** The buffer that holds the low byte of each index. *)
Lemma StartChecksum_never_wraps_ramp :
  exists c,
    StartChecksum ramp = Ok c ramp /\
    c = sum_bytes (map (MessageBuffer ramp) [4; 5; 6; 7; 8; 9]) /\
    0 <= c <= 1530.
Proof.
  apply (StartChecksum_never_wraps ramp).
  intros i Hi. unfold is_byte. cbn. apply Z.mod_pos_bound. lia.
Defined.

(** ** More on [CopyToMessageBuffer] *)

(** Whether [start[i]] can be read does not depend on the state. *)
Lemma readable_anywhere w start length w0 i :
  readable w start length -> 0 <= i < length ->
  exists v, load start i w0 = Ok v w0.
Proof.
  intros Hr Hi. destruct (Hr i Hi) as [v Hv].
  destruct start as [off|a off]; cbn [load] in *.
  - unfold load_MessageBuffer in *.
    destruct ((0 <=? off + i) && (off + i <? MessageBufferSize));
      [eauto | discriminate].
  - destruct (array_get a (off + i)); [|discriminate].
    unfold ret. eauto.
Qed.

Lemma copy_service_count length k :
  Z.of_nat k < length ->
  (length + 99) / 100 - (Z.of_nat k + 99) / 100 =
  (length + 99) / 100 - (Z.of_nat (S k) + 99) / 100 +
  (if Z.rem (Z.of_nat k) 100 =? 0 then 1 else 0).
Proof.
  intros Hk. rewrite Z.rem_mod_nonneg by lia.
  destruct (Z.eqb_spec (Z.of_nat k mod 100) 0) as [E|E];
    Z.div_mod_to_equations; lia.
Qed.

Lemma CopyToMessageBuffer_copying w start length offset :
  0 <= length -> 0 <= offset -> offset + length <= MessageBufferSize ->
  readable w start length ->
  post (CopyToMessageBuffer start length offset) w
       (fun _ w' => copying w length offset O w').
Proof.
  intros Hlen Hoff Hfit Hread. unfold CopyToMessageBuffer.
  apply (post_for_down _ (copying w length offset)).
  - repeat split; try reflexivity.
    rewrite Z2Nat.id by exact Hlen. lia.
  - intros k w0 Hk (Hout & Hp & Hs & Hr & Hc).
    destruct (readable_anywhere w start length w0 (Z.of_nat k) Hread
                ltac:(lia)) as [v Hv].
    step (ok_post (load start (Z.of_nat k)) w0 v w0
            (fun v' w' => v' = v /\ w' = w0) Hv); [auto|].
    intros v' w1 [-> ->].
    step post_store_MessageBuffer; [lia|].
    intros u w2 [Hm Hb].
    pose proof (buffer_only_services _ _ Hb) as [Hsv Hpw].
    destruct Hb as (_ & _ & _ & Hs2 & _ & Hr2).
    assert (Hout2 : forall j, j < offset \/ offset + length <= j ->
                              MessageBuffer w2 j = MessageBuffer w j).
    { intros j Hj. rewrite Hm, upd_other by lia. apply Hout, Hj. }
    pose proof (copy_service_count length k ltac:(lia)) as Hcount.
    destruct (Z.rem (Z.of_nat k) 100 =? 0).
    + eapply post_weaken; [apply post_ScratchWatchdog_undisturbed|].
      intros u' w3 [[Hb3 Hp3 _ Hs3 _ Hr3] Hsv3].
      repeat split; try congruence.
      * intros j Hj. rewrite Hb3. apply Hout2, Hj.
      * rewrite Hsv3, Hsv. lia.
    + apply post_ret. repeat split; try congruence.
      * exact Hout2.
      * rewrite Hsv. lia.
Qed.

(** X4.  For every readable source and every destination inside the staging
    buffer, [CopyToMessageBuffer] returns having changed no byte of the
    buffer outside [offset .. offset+length-1], having sent nothing to the
    line controller and read nothing from it, and having serviced the
    watchdog once for each index that is a multiple of 100:
    [(length + 99) / 100] times. *)
Theorem CopyToMessageBuffer_frame w start length offset :
  0 <= length -> 0 <= offset -> offset + length <= MessageBufferSize ->
  readable w start length ->
  exists w',
    CopyToMessageBuffer start length offset w = Ok tt w' /\
    (forall j, j < offset \/ offset + length <= j ->
               MessageBuffer w' j = MessageBuffer w j) /\
    port_writes w' = port_writes w /\
    status_pos w' = status_pos w /\ rx_pos w' = rx_pos w /\
    Z.of_nat (services w') = Z.of_nat (services w) + (length + 99) / 100.
Proof.
  intros Hlen Hoff Hfit Hread.
  destruct (post_ok _ _ _
              (CopyToMessageBuffer_copying w start length offset
                 Hlen Hoff Hfit Hread))
    as ([] & w' & E & Hout & Hp & Hs & Hr & Hc).
  exists w'. repeat split; try assumption.
  rewrite Hc. change ((Z.of_nat 0 + 99) / 100) with 0. lia.
Qed.

(** 250 bytes copied to offset 10: three services, at indices 200, 100, 0. *)
Lemma CopyToMessageBuffer_frame_250 :
  exists w',
    CopyToMessageBuffer (InArray (repeat 0xA5 250) 0) 250 10 idle = Ok tt w' /\
    (forall j, j < 10 \/ 10 + 250 <= j ->
               MessageBuffer w' j = MessageBuffer idle j) /\
    port_writes w' = port_writes idle /\
    status_pos w' = status_pos idle /\ rx_pos w' = rx_pos idle /\
    Z.of_nat (services w') = Z.of_nat (services idle) + (250 + 99) / 100.
Proof.
  apply (CopyToMessageBuffer_frame idle (InArray (repeat 0xA5 250) 0) 250 10).
  - lia.
  - lia.
  - unfold MessageBufferSize. lia.
  - apply readable_array; [lia|]. rewrite repeat_length. lia.
Defined.

(** X5.  [CopyToMessageBuffer] checks no bound: with at least one byte to
    copy and a destination whose last index [offset + length - 1] is outside
    the staging buffer, its first store is there, outside the buffer, before
    anything else was written. *)
Theorem CopyToMessageBuffer_overrun w start length offset v :
  1 <= length ->
  load start (length - 1) w = Ok v w ->
  length - 1 + offset < 0 \/ MessageBufferSize <= length - 1 + offset ->
  CopyToMessageBuffer start length offset w
  = Fault (OutOfBounds (length - 1 + offset)).
Proof.
  intros Hlen Hv Hout. unfold CopyToMessageBuffer.
  destruct (Z.to_nat length) as [|k] eqn:Ek; [lia|].
  replace (Z.of_nat k) with (length - 1) in * by lia.
  cbn [for_down]. assert (Ek' : Z.of_nat k = length - 1) by lia.
  rewrite Ek'. unfold bind at 1 2. rewrite Hv.
  unfold bind at 1. unfold store_MessageBuffer.
  replace ((0 <=? length - 1 + offset) &&
           (length - 1 + offset <? MessageBufferSize)) with false;
    [reflexivity|].
  symmetry. apply andb_false_iff.
  destruct Hout; [left; apply Z.leb_gt | right; apply Z.ltb_ge]; lia.
Qed.

(** Five bytes copied to offset 1020: the store of index 4 is at 1024. *)
Lemma CopyToMessageBuffer_overrun_at_1024 :
  CopyToMessageBuffer (InArray [1; 2; 3; 4; 5] 0) 5 1020 idle
  = Fault (OutOfBounds (5 - 1 + 1020)).
Proof.
  apply (CopyToMessageBuffer_overrun idle (InArray [1; 2; 3; 4; 5] 0) 5 1020 5).
  - lia.
  - reflexivity.
  - right. unfold MessageBufferSize. lia.
Defined.

Lemma read_range_peek buf start :
  forall n i l,
    read_range buf start n i = inl l ->
    forall d, 0 <= d < Z.of_nat n -> exists v, peek buf start (i + d) = inl v.
Proof.
  induction n as [|n IH]; intros i l H d Hd; [lia|].
  cbn [read_range] in H.
  destruct (peek buf start i) as [v|e] eqn:Ev; [|discriminate].
  destruct (read_range buf start n (i + 1)) as [l'|e] eqn:E; [|discriminate].
  destruct (Z.eq_dec d 0) as [->|Hne].
  - rewrite Z.add_0_r. eauto.
  - destruct (IH (i + 1) l' E (d - 1) ltac:(lia)) as [v' Hv'].
    exists v'. rewrite <- Hv'. f_equal. lia.
Qed.

Lemma peek_load start i w v :
  peek (MessageBuffer w) start i = inl v -> load start i w = Ok v w.
Proof. intros H. now rewrite load_peek, H. Qed.

(** X6.  Copy, then checksum: after [CopyToMessageBuffer] has put a readable
    range of bytes into the staging buffer (the source being outside the
    buffer, at or before the destination, or past its end), the payload
    checksum computed over the copy in the staging buffer is the one
    computed over the source before the copy. *)
Theorem checksum_of_copy w start length offset bytes :
  0 <= offset -> offset + length <= MessageBufferSize ->
  read_range (MessageBuffer w) start (Z.to_nat length) 0 = inl bytes ->
  Forall is_byte bytes ->
  forward_or_apart start length offset ->
  exists w' c w1 w2,
    CopyToMessageBuffer start length offset w = Ok tt w' /\
    AddReadPayloadChecksum start length w = Ok c w1 /\
    AddReadPayloadChecksum (InMessageBuffer offset) length w' = Ok c w2 /\
    c = sum_bytes bytes mod 2 ^ 16.
Proof.
  intros Hoff Hfit Hr Hb Hfa.
  assert (Hread : readable w start length).
  { intros i Hi.
    destruct (read_range_peek _ _ _ _ _ Hr i ltac:(lia)) as [v Hv].
    exists v. apply peek_load. exact Hv. }
  destruct (post_ok _ _ _
              (CopyToMessageBuffer_forward w start length offset
                 Hoff Hfit Hread Hfa)) as ([] & w' & E & Hc & _).
  destruct (AddReadPayloadChecksum_sum start length w bytes Hr Hb) as [w1 E1].
  assert (Hr' : read_range (MessageBuffer w') (InMessageBuffer offset)
                  (Z.to_nat length) 0 = inl bytes).
  { rewrite <- Hr. apply read_range_ext. intros d Hd.
    rewrite !Z.add_0_l.
    specialize (Hc d ltac:(lia)). apply load_Ok_peek in Hc. rewrite Hc.
    cbn [peek].
    replace ((0 <=? offset + d) && (offset + d <? MessageBufferSize))
      with true; [reflexivity|].
    symmetry. apply andb_true_intro.
    split; [apply Z.leb_le | apply Z.ltb_lt]; lia. }
  destruct (AddReadPayloadChecksum_sum (InMessageBuffer offset) length w'
              bytes Hr' Hb) as [w2 E2].
  exists w', (sum_bytes bytes mod 2 ^ 16), w1, w2. auto.
Qed.

(** A payload of 300 bytes 0xFF copied to offset 10. *)
Lemma checksum_of_copy_300 :
  exists w' c w1 w2,
    CopyToMessageBuffer (InArray (repeat 0xFF 300) 0) 300 10 idle = Ok tt w' /\
    AddReadPayloadChecksum (InArray (repeat 0xFF 300) 0) 300 idle = Ok c w1 /\
    AddReadPayloadChecksum (InMessageBuffer 10) 300 w' = Ok c w2 /\
    c = sum_bytes (repeat 0xFF 300) mod 2 ^ 16.
Proof.
  apply (checksum_of_copy idle (InArray (repeat 0xFF 300) 0) 300 10
           (repeat 0xFF 300)).
  - lia.
  - unfold MessageBufferSize. lia.
  - vm_compute. reflexivity.
  - apply Forall_forall. intros x Hx. apply repeat_spec in Hx. subst x.
    unfold is_byte. lia.
  - exact I.
Defined.

(** ** More on [WriteMessage] *)

Lemma flags_of_view start length segment buf sent body :
  read_range buf start
    (Z.to_nat ((if has_flag segment End then length - 1 else length) - 0)) 0
  = inl body ->
  has_flag segment End = false ->
  WriteMessage_view start length segment buf sent
  = inl (contents buf,
         sent ++ frame_head segment ++ map (Wr DLC_Transmit_FIFO) body).
Proof.
  intros Hr He. unfold WriteMessage_view. rewrite Hr, He. reflexivity.
Qed.

Lemma contents_pointwise buf1 buf2 :
  contents buf1 = contents buf2 ->
  forall i, 0 <= i < MessageBufferSize -> buf1 i = buf2 i.
Proof.
  intros H i Hi. unfold contents in H.
  assert (Hn : forall buf : Z -> Z,
             nth_error (map (fun i => buf (Z.of_nat i))
                          (seq 0 (Z.to_nat MessageBufferSize))) (Z.to_nat i)
             = Some (buf i)).
  { intros buf. rewrite nth_error_map, nth_error_seq.
    replace (Z.to_nat i <? Z.to_nat MessageBufferSize)%nat with true
      by (symmetry; apply Nat.ltb_lt; lia).
    cbn. now rewrite Z2Nat.id by lia. }
  pose proof (Hn buf1) as H1. rewrite H, Hn in H1. congruence.
Qed.

(** X7.  A segment without End: for every readable range of [length] bytes
    (none when [length <= 0]) and whatever the line controller reports,
    [WriteMessage] returns having sent the frame-start command if and only
    if the segment includes Start, then the [length] bytes in order, all to
    the data port with no other command; the staging buffer is as it
    was. *)
Theorem WriteMessage_open_segment start length segment w bytes :
  has_flag segment End = false ->
  read_range (MessageBuffer w) start (Z.to_nat length) 0 = inl bytes ->
  exists w',
    WriteMessage start length segment w = Ok tt w' /\
    port_writes w' =
    port_writes w ++
      (if has_flag segment Start then [Wr DLC_Transmit_Command 0x14] else []) ++
      map (Wr DLC_Transmit_FIFO) bytes /\
    forall i, 0 <= i < MessageBufferSize ->
              MessageBuffer w' i = MessageBuffer w i.
Proof.
  intros He Hr.
  pose proof (WriteMessage_caller_view start length segment w) as Hv.
  rewrite (flags_of_view start length segment _ _ bytes) in Hv;
    [|rewrite He, Z.sub_0_r; exact Hr | exact He].
  apply caller_view_inl in Hv as (w' & E & Hb & Hp).
  exists w'. split; [exact E|]. split; [exact Hp|].
  apply contents_pointwise. exact Hb.
Qed.

(** Two bytes of a message staged in the buffer, as a Middle segment. *)
Lemma WriteMessage_open_segment_middle :
  exists w',
    WriteMessage (InMessageBuffer 4) 2 Middle ramp = Ok tt w' /\
    port_writes w' =
    port_writes ramp ++
      (if has_flag Middle Start then [Wr DLC_Transmit_Command 0x14] else []) ++
      map (Wr DLC_Transmit_FIFO) [4; 5] /\
    forall i, 0 <= i < MessageBufferSize ->
              MessageBuffer w' i = MessageBuffer ramp i.
Proof.
  apply (WriteMessage_open_segment (InMessageBuffer 4) 2 Middle ramp [4; 5]);
    reflexivity.
Defined.

Lemma read_range_app buf start :
  forall n1 n2 i,
    read_range buf start (n1 + n2) i =
    match read_range buf start n1 i with
    | inl l1 =>
        match read_range buf start n2 (i + Z.of_nat n1) with
        | inl l2 => inl (l1 ++ l2)
        | inr e => inr e
        end
    | inr e => inr e
    end.
Proof.
  induction n1 as [|n1 IH]; intros n2 i.
  - cbn [Nat.add read_range]. rewrite Z.add_0_r.
    now destruct (read_range buf start n2 i).
  - cbn [Nat.add read_range].
    destruct (peek buf start i) as [v|e]; [|reflexivity].
    rewrite IH.
    destruct (read_range buf start n1 (i + 1)) as [l1|e]; [|reflexivity].
    replace (i + 1 + Z.of_nat n1) with (i + Z.of_nat (S n1)) by lia.
    now destruct (read_range buf start n2 (i + Z.of_nat (S n1))).
Qed.

Lemma peek_contents buf1 buf2 start i :
  contents buf1 = contents buf2 -> peek buf1 start i = peek buf2 start i.
Proof.
  intros H. destruct start as [off|a off]; cbn [peek]; [|reflexivity].
  destruct ((0 <=? off + i) && (off + i <? MessageBufferSize)) eqn:E;
    [|reflexivity].
  apply andb_prop in E as [E1%Z.leb_le E2%Z.ltb_lt].
  f_equal. apply (contents_pointwise _ _ H). lia.
Qed.

Lemma WriteMessage_view_contents start length segment buf1 buf2 sent :
  contents buf1 = contents buf2 ->
  WriteMessage_view start length segment buf1 sent =
  WriteMessage_view start length segment buf2 sent.
Proof.
  intros H. unfold WriteMessage_view.
  rewrite (read_range_ext buf1 start buf2 start _ 0 0)
    by (intros d _; apply peek_contents, H).
  rewrite (peek_contents buf1 buf2 start (length - 1) H).
  now rewrite H.
Qed.

(** The view of a message sent in two calls, the first without End and the
    second without Start. *)
Lemma WriteMessage_view_streamed start k m s1 s2 s buf sent l1 :
  0 <= k -> 0 <= m ->
  has_flag s1 End = false -> has_flag s2 Start = false ->
  has_flag s Start = has_flag s1 Start ->
  has_flag s End = has_flag s2 End ->
  (has_flag s2 End = true -> 1 <= m) ->
  read_range buf start (Z.to_nat k) 0 = inl l1 ->
  WriteMessage_view (ptr_add start k) m s2 buf
    (sent ++ frame_head s1 ++ map (Wr DLC_Transmit_FIFO) l1)
  = WriteMessage_view start (k + m) s buf sent.
Proof.
  intros Hk Hm He1 Hs2 Hs He Hm1 Hl1.
  unfold WriteMessage_view, frame_head. rewrite He, Hs, Hs2.
  rewrite read_range_ptr_add.
  set (m' := if has_flag s2 End then m - 1 else m).
  assert (Hm' : 0 <= m')
    by (unfold m'; destruct (has_flag s2 End); [specialize (Hm1 eq_refl)|]; lia).
  replace (Z.to_nat ((if has_flag s2 End then k + m - 1 else k + m) - 0))
    with (Z.to_nat k + Z.to_nat (m' - 0))%nat
    by (unfold m'; destruct (has_flag s2 End); lia).
  rewrite read_range_app, Hl1.
  rewrite Z.add_0_l, Z2Nat.id by exact Hk.
  destruct (read_range buf start (Z.to_nat (m' - 0)) k) as [l2|e];
    [|reflexivity].
  rewrite peek_ptr_add. replace (k + (m - 1)) with (k + m - 1) by lia.
  cbn [app]. rewrite map_app, <- !app_assoc. reflexivity.
Qed.

Lemma inl_pair_inj {A B C} (a a' : A) (b b' : B) :
  @inl (A * B) C (a, b) = inl (a', b') -> a = a' /\ b = b'.
Proof. intros H. injection H as -> ->. auto. Qed.

(** X8.  A message may be streamed: sending the first [k] bytes of a range
    in a call without End and the [m] bytes that follow in a call without
    Start leaves the caller with what one call for the [k + m] bytes leaves,
    with Start as in the first call and End as in the second: the same
    bytes and commands sent in the same order, the same staging buffer, or
    the same fault.  So Start then End is Complete, and Middle segments may
    come between them. *)
Theorem WriteMessage_streamed start k m s1 s2 s w :
  0 <= k -> 0 <= m ->
  has_flag s1 End = false -> has_flag s2 Start = false ->
  has_flag s Start = has_flag s1 Start ->
  has_flag s End = has_flag s2 End ->
  (has_flag s2 End = true -> 1 <= m) ->
  caller_view
    ((WriteMessage start k s1 ;; WriteMessage (ptr_add start k) m s2) w)
  = caller_view (WriteMessage start (k + m) s w).
Proof.
  intros Hk Hm He1 Hs2 Hs He Hm1.
  rewrite (WriteMessage_caller_view start (k + m) s w).
  pose proof (WriteMessage_caller_view start k s1 w) as H1.
  unfold bind.
  destruct (WriteMessage start k s1 w) as [[] w1|e]; cbn [caller_view] in *.
  - unfold WriteMessage_view in H1. rewrite He1, Z.sub_0_r in H1.
    destruct (read_range (MessageBuffer w) start (Z.to_nat k) 0)
      as [l1|e] eqn:Hl1; [|discriminate].
    apply inl_pair_inj in H1 as [Hb Hp].
    rewrite WriteMessage_caller_view.
    rewrite (WriteMessage_view_contents _ _ _ (MessageBuffer w1)
               (MessageBuffer w)) by exact Hb.
    rewrite Hp.
    now apply WriteMessage_view_streamed.
  - unfold WriteMessage_view in *. rewrite He1, Z.sub_0_r in H1.
    destruct (read_range (MessageBuffer w) start (Z.to_nat k) 0)
      as [l1|e'] eqn:Hl1; [discriminate|].
    assert (e = e') by congruence. subst e'.
    replace (Z.to_nat ((if has_flag s End then k + m - 1 else k + m) - 0))
      with (Z.to_nat k +
            Z.to_nat ((if has_flag s End then m - 1 else m) - 0))%nat.
    + now rewrite read_range_app, Hl1.
    + rewrite He. destruct (has_flag s2 End);
        [specialize (Hm1 eq_refl)|]; lia.
Qed.

(** A frame of eight bytes sent as a Start segment of three and an End
    segment of five, against the frame sent Complete. *)
Lemma WriteMessage_streamed_start_end :
  caller_view
    ((WriteMessage (InArray [0x6C; 0xF0; 0x10; 0x60; 1; 2; 3; 4] 0) 3 Start ;;
      WriteMessage
        (ptr_add (InArray [0x6C; 0xF0; 0x10; 0x60; 1; 2; 3; 4] 0) 3) 5 End)
       idle)
  = caller_view
      (WriteMessage (InArray [0x6C; 0xF0; 0x10; 0x60; 1; 2; 3; 4] 0) (3 + 5)
         Complete idle).
Proof.
  apply (WriteMessage_streamed
           (InArray [0x6C; 0xF0; 0x10; 0x60; 1; 2; 3; 4] 0) 3 5
           Start End Complete idle);
    try reflexivity; lia.
Defined.

(** ** The watchdog and the long sleep *)

Lemma watchdog_writes_scratch w :
  exists w',
    ScratchWatchdog w = Ok tt w' /\
    watchdog_writes w' =
    watchdog_writes w ++
      [Wr Watchdog1 0x55; Wr Watchdog1 0xAA;
       Wr Watchdog2 (Z.land (Watchdog2_cell w) 0x7F);
       Wr Watchdog2
         (Z.lor (to_byte (Z.land (Watchdog2_cell w) 0x7F)) 0x80)] /\
    Watchdog2_cell w' =
    to_byte (Z.lor (to_byte (Z.land (Watchdog2_cell w) 0x7F)) 0x80).
Proof.
  eexists. split; [reflexivity|]. split; [|reflexivity].
  unfold watchdog_writes. cbn [events log filter is_watchdog_write rev].
  rewrite <- !app_assoc. reflexivity.
Qed.

Lemma testbit_byte_mask v i :
  0 <= i < 8 -> Z.testbit (to_byte v) i = Z.testbit v i.
Proof.
  intros Hi. unfold to_byte. change 0xFF with (Z.ones 8).
  rewrite Z.land_spec, Z.ones_spec_low by lia. apply andb_true_r.
Qed.

(** X9.  A watchdog service writes 0x55 then 0xAA to [Watchdog1], then
    writes [Watchdog2] twice, first with bit 7 low and then with bit 7 high;
    the other seven bits of [Watchdog2] are written back as they were read.
    It touches neither the staging buffer nor the line controller. *)
Theorem ScratchWatchdog_toggles_bit7 w :
  exists w' low high,
    ScratchWatchdog w = Ok tt w' /\
    watchdog_writes w' =
    watchdog_writes w ++
      [Wr Watchdog1 0x55; Wr Watchdog1 0xAA;
       Wr Watchdog2 low; Wr Watchdog2 high] /\
    Z.testbit low 7 = false /\ Z.testbit high 7 = true /\
    (forall i, 0 <= i < 7 ->
       Z.testbit low i = Z.testbit (Watchdog2_cell w) i /\
       Z.testbit high i = Z.testbit (Watchdog2_cell w) i) /\
    Watchdog2_cell w' = to_byte high /\
    undisturbed w w'.
Proof.
  destruct (watchdog_writes_scratch w) as (w' & E & Hw & Hc).
  destruct (ScratchWatchdog_undisturbed w) as (w'' & E' & Hu & _).
  assert (w'' = w') by congruence. subst w''.
  exists w', (Z.land (Watchdog2_cell w) 0x7F),
    (Z.lor (to_byte (Z.land (Watchdog2_cell w) 0x7F)) 0x80).
  split; [exact E|]. split; [exact Hw|].
  change 0x7F with (Z.ones 7). change 0x80 with (2 ^ 7).
  split; [rewrite Z.land_spec, Z.ones_spec_high by lia; apply andb_false_r|].
  split; [rewrite Z.lor_spec, Z.pow2_bits_true by lia; apply orb_true_r|].
  split; [|split; [exact Hc | exact Hu]].
  intros i Hi.
  assert (Hlow : Z.testbit (Z.land (Watchdog2_cell w) (Z.ones 7)) i
                 = Z.testbit (Watchdog2_cell w) i)
    by (rewrite Z.land_spec, Z.ones_spec_low by lia; apply andb_true_r).
  split; [exact Hlow|].
  rewrite Z.lor_spec, testbit_byte_mask, Hlow by lia.
  rewrite Z.pow2_bits_false by lia. apply orb_false_r.
Qed.

Lemma post_WasteTime_loop n w :
  0 <= n ->
  post (for_range 0 n tt (fun _ _ => WasteTime)) w
       (fun _ w' => undisturbed w w' /\ services w' = services w).
Proof.
  intros Hn.
  apply (post_for_range (fun _ _ => WasteTime)
           (fun _ _ w' => undisturbed w w' /\ services w' = services w));
    [exact Hn | split; [apply undisturbed_refl | reflexivity] |].
  intros i a w0 _ [Hu Hs].
  eapply post_weaken; [apply post_WasteTime_undisturbed|].
  intros u w' [Hu' Hs']. split; [exact (undisturbed_trans _ _ _ Hu Hu')|].
  congruence.
Qed.

Lemma post_LongSleepWithWatchdog w :
  post LongSleepWithWatchdog w
       (fun _ w' =>
          undisturbed w w' /\
          Z.of_nat (services w') = Z.of_nat (services w) + 10 * 1000).
Proof.
  unfold LongSleepWithWatchdog.
  eapply post_weaken.
  - apply (post_for_range _
             (fun i _ w' =>
                undisturbed w w' /\
                Z.of_nat (services w') = Z.of_nat (services w) + i));
      [lia | split; [apply undisturbed_refl | lia] |].
    intros i a w0 _ [Hu Hs].
    step post_ScratchWatchdog_undisturbed. intros u w1 [Hu1 Hs1].
    eapply post_weaken; [apply post_WasteTime_loop; lia|].
    intros u' w2 [Hu2 Hs2]. split.
    + exact (undisturbed_trans _ _ _ Hu (undisturbed_trans _ _ _ Hu1 Hu2)).
    + rewrite Hs2, Hs1. lia.
  - intros a w' H. exact H.
Qed.

(** X10.  [LongSleepWithWatchdog] returns after exactly 10,000 watchdog
    services; it leaves the staging buffer as it is, sends nothing to the
    line controller and reads nothing from it. *)
Theorem LongSleepWithWatchdog_services w :
  exists w',
    LongSleepWithWatchdog w = Ok tt w' /\
    Z.of_nat (services w') = Z.of_nat (services w) + 10000 /\
    undisturbed w w'.
Proof.
  destruct (post_ok _ _ _ (post_LongSleepWithWatchdog w))
    as ([] & w' & E & Hu & Hs).
  exists w'. split; [exact E|]. split; [exact Hs | exact Hu].
Qed.

(** ** The reboot notification *)

Lemma value_byte_mod value n :
  0 <= n -> value_byte value n = (value / 2 ^ (8 * n)) mod 2 ^ 8.
Proof.
  intros Hn. unfold value_byte, to_byte.
  rewrite Z.shiftr_land, Z.shiftr_shiftl_l by lia.
  rewrite Z.sub_diag, Z.shiftl_0_r.
  rewrite <- Z.land_assoc. change (Z.land 0xFF 0xFF) with (Z.ones 8).
  rewrite Z.land_ones, Z.shiftr_div_pow2 by lia. reflexivity.
Qed.

Lemma value_bytes_big_endian value :
  ((value_byte value 3 * 256 + value_byte value 2) * 256
   + value_byte value 1) * 256 + value_byte value 0
  = value mod 2 ^ 32.
Proof.
  rewrite !value_byte_mod by lia.
  change (8 * 3) with 24. change (8 * 2) with 16. change (8 * 1) with 8.
  change (8 * 0) with 0.
  change (2 ^ 24) with 16777216. change (2 ^ 16) with 65536.
  change (2 ^ 8) with 256. change (2 ^ 0) with 1.
  change (2 ^ 32) with 4294967296.
  Z.div_mod_to_equations. lia.
Qed.

Lemma staged_reboot_frame_range buf b3 b2 b1 b0 :
  read_range (staged_reboot_frame buf b3 b2 b1 b0) (InMessageBuffer 0) 7 0
  = inl [0x6C; 0xF0; 0x10; 0x60; b3; b2; b1] /\
  peek (staged_reboot_frame buf b3 b2 b1 b0) (InMessageBuffer 0) (8 - 1)
  = inl b0.
Proof. split; reflexivity. Qed.

Lemma post_WriteMessage_complete start length w body v :
  read_range (MessageBuffer w) start (Z.to_nat (length - 1)) 0 = inl body ->
  peek (MessageBuffer w) start (length - 1) = inl v ->
  post (WriteMessage start length Complete) w
       (fun _ w' =>
          port_writes w' =
          port_writes w ++ [Wr DLC_Transmit_Command 0x14] ++
            map (Wr DLC_Transmit_FIFO) body ++ frame_tail v /\
          buffer_contents w' = repeat 0 (Z.to_nat MessageBufferSize)).
Proof.
  intros Hr Hp.
  pose proof (WriteMessage_caller_view start length Complete w) as Hv.
  unfold WriteMessage_view in Hv.
  change (has_flag Complete End) with true in Hv. cbv beta iota zeta in Hv.
  rewrite Z.sub_0_r, Hr, Hp in Hv.
  apply caller_view_inl in Hv as (w' & E & Hb & Hpw).
  eapply ok_post; [exact E|]. split; [|exact Hb].
  rewrite Hpw. change (frame_head Complete) with [Wr DLC_Transmit_Command 0x14].
  rewrite <- !app_assoc. reflexivity.
Qed.

Lemma post_Reboot_notify value w :
  post (Reboot_notify value) w
       (fun _ w' =>
          port_writes w' =
          port_writes w ++
            [Wr DLC_Transmit_Command 0x14;
             Wr DLC_Transmit_FIFO 0x6C; Wr DLC_Transmit_FIFO 0xF0;
             Wr DLC_Transmit_FIFO 0x10; Wr DLC_Transmit_FIFO 0x60;
             Wr DLC_Transmit_FIFO (value_byte value 3);
             Wr DLC_Transmit_FIFO (value_byte value 2);
             Wr DLC_Transmit_FIFO (value_byte value 1);
             Wr DLC_Transmit_Command 0x0C;
             Wr DLC_Transmit_FIFO (value_byte value 0);
             Wr DLC_Transmit_Command 0x03; Wr DLC_Transmit_FIFO 0x00] /\
          buffer_contents w' = repeat 0 (Z.to_nat MessageBufferSize)).
Proof.
  assert (Hin : forall i, 0 <= i < 8 -> 0 <= i < MessageBufferSize)
    by (unfold MessageBufferSize; lia).
  unfold Reboot_notify.
  change (to_byte (Z.shiftr (Z.land value 0xFF000000) 24))
    with (value_byte value 3).
  change (to_byte (Z.shiftr (Z.land value 0x00FF0000) 16))
    with (value_byte value 2).
  change (to_byte (Z.shiftr (Z.land value 0x0000FF00) 8))
    with (value_byte value 1).
  change (to_byte (Z.shiftr (Z.land value 0x000000FF) 0))
    with (value_byte value 0).
  step post_LongSleepWithWatchdog. intros u w0 [[_ Hp _ _ _ _] _].
  step post_store_MessageBuffer; [apply Hin; lia|]. intros u0 w1 [H0 B0].
  step post_store_MessageBuffer; [apply Hin; lia|]. intros u1 w2 [H1 B1].
  step post_store_MessageBuffer; [apply Hin; lia|]. intros u2 w3 [H2 B2].
  step post_store_MessageBuffer; [apply Hin; lia|]. intros u3 w4 [H3 B3].
  step post_store_MessageBuffer; [apply Hin; lia|]. intros u4 w5 [H4 B4].
  step post_store_MessageBuffer; [apply Hin; lia|]. intros u5 w6 [H5 B5].
  step post_store_MessageBuffer; [apply Hin; lia|]. intros u6 w7 [H6 B6].
  step post_store_MessageBuffer; [apply Hin; lia|]. intros u7 w8 [H7 B7].
  assert (Hm : MessageBuffer w8 =
               staged_reboot_frame (MessageBuffer w0) (value_byte value 3)
                 (value_byte value 2) (value_byte value 1)
                 (value_byte value 0))
    by (unfold staged_reboot_frame; congruence).
  assert (Hp8 : port_writes w8 = port_writes w).
  { apply buffer_only_services in B0, B1, B2, B3, B4, B5, B6, B7.
    destruct B0, B1, B2, B3, B4, B5, B6, B7. congruence. }
  destruct (staged_reboot_frame_range (MessageBuffer w0)
              (value_byte value 3) (value_byte value 2)
              (value_byte value 1) (value_byte value 0)) as [Hr Hk].
  rewrite <- Hm in Hr, Hk.
  step (post_WriteMessage_complete (InMessageBuffer 0) 8 w8 _ _ Hr Hk).
  intros u8 w9 [Hp9 Hb9].
  eapply post_weaken; [apply post_LongSleepWithWatchdog|].
  intros u9 w10 [[Hb10 Hp10 _ _ _ _] _]. split.
  - rewrite Hp10, Hp9, Hp8. reflexivity.
  - unfold buffer_contents in *. now rewrite Hb10.
Qed.

Lemma halt_loop_never_ends fuel w :
  while_loop fuel (fun _ : unit => ret true) (fun _ => ret tt) tt w
  = Fault OutOfFuel.
Proof.
  induction fuel as [|fuel IH]; [reflexivity|]. exact IH.
Qed.


(** ** More on [ReadMessage] *)

Lemma rx_status_range w n : 0 <= rx_status_at w n < 8.
Proof.
  unfold rx_status_at, to_byte.
  rewrite Z.shiftr_land. change (Z.shiftr 0xE0 5) with (Z.ones 3).
  rewrite Z.land_ones by lia. apply Z.mod_pos_bound. lia.
Qed.

Lemma turn_refl w : turn 0 0 [] w w.
Proof. constructor; auto using app_nil_r. Qed.

Lemma turn_trans ds1 dr1 l1 ds2 dr2 l2 w1 w2 w3 :
  turn ds1 dr1 l1 w1 w2 -> turn ds2 dr2 l2 w2 w3 ->
  turn (ds1 + ds2) (dr1 + dr2) (l1 ++ l2) w1 w3.
Proof.
  intros [a1 b1 c1 d1 e1] [a2 b2 c2 d2 e2].
  constructor; try congruence; try lia.
  now rewrite e2, e1, app_assoc.
Qed.

Lemma undisturbed_turn w w' : undisturbed w w' -> turn 0 0 [] w w'.
Proof.
  intros [a b c d e f].
  constructor; rewrite ?Nat.add_0_r, ?app_nil_r; assumption.
Qed.

(** The five ways a turn of the polling loop can go. *)

Lemma ReadMessage_body_cap fuel cc w :
  ReadMessage_body fuel 25 cc w = Ok (Return (25, cc, 0xEE)) w.
Proof. reflexivity. Qed.

Lemma ReadMessage_body_idle fuel length cc w :
  length <> 25 ->
  rx_status_at w (status_pos w) = 0 ->
  exists w',
    ReadMessage_body fuel length cc w = Ok (Next (length, cc)) w' /\
    MessageBuffer w' = MessageBuffer w /\ turn 1 0 [] w w'.
Proof.
  intros H25 Hst.
  rewrite (ReadMessage_body_poll fuel length cc w H25), Hst.
  eexists. split; [reflexivity|]. split; [reflexivity|].
  constructor; cbn [status_pos rx_pos status_tape rx_tape];
    rewrite ?Nat.add_0_r, ?Nat.add_1_r, ?app_nil_r; reflexivity.
Qed.

Lemma ReadMessage_switch_data fuel length cc st :
  is_data_status st ->
  ReadMessage_switch fuel length cc st =
  (v <- read_DLC_Receive_FIFO ;;
   store_MessageBuffer length v ;;
   ret (Next (length + 1, cc))).
Proof. intros [-> | [-> | ->]]; reflexivity. Qed.

Lemma ReadMessage_body_data fuel length cc w :
  length <> 25 -> 0 <= length < MessageBufferSize ->
  is_data_status (rx_status_at w (status_pos w)) ->
  exists w',
    ReadMessage_body fuel length cc w = Ok (Next (length + 1, cc)) w' /\
    MessageBuffer w' =
    upd (MessageBuffer w) length (to_byte (rx_tape w (rx_pos w))) /\
    turn 1 1 [] w w'.
Proof.
  intros H25 Hin Hst.
  rewrite (ReadMessage_body_poll fuel length cc w H25).
  rewrite (ReadMessage_switch_data fuel length cc _ Hst).
  unfold bind, read_DLC_Status, read_DLC_Receive_FIFO, store_MessageBuffer.
  replace ((0 <=? length) && (length <? MessageBufferSize)) with true
    by (symmetry; apply andb_true_intro;
        split; [apply Z.leb_le | apply Z.ltb_lt]; lia).
  eexists. split; [reflexivity|]. split; [reflexivity|].
  constructor; cbn [status_pos rx_pos status_tape rx_tape];
    rewrite ?Nat.add_1_r, ?app_nil_r; reflexivity.
Qed.

Lemma take_completion_code_turn w :
  exists w',
    take_completion_code w = Ok (to_byte (rx_tape w (rx_pos w))) w' /\
    MessageBuffer w' = MessageBuffer w /\
    turn 1 1 [Wr DLC_Transmit_Command 0x02] w w'.
Proof.
  eexists. split; [reflexivity|]. split; [reflexivity|].
  constructor; cbn [status_pos rx_pos status_tape rx_tape];
    rewrite ?Nat.add_1_r; reflexivity.
Qed.

Lemma ReadMessage_body_completion fuel length cc w :
  length <> 25 ->
  is_completion_status (rx_status_at w (status_pos w)) ->
  exists w',
    ReadMessage_body fuel length cc w =
    Ok (if length =? 0
        then Next (length, to_byte (rx_tape w (rx_pos w)))
        else if Z.land (to_byte (rx_tape w (rx_pos w))) 0x30 =? 0x30
             then Return (0, to_byte (rx_tape w (rx_pos w)), 2)
             else Return (length, to_byte (rx_tape w (rx_pos w)), 1)) w' /\
    MessageBuffer w' = MessageBuffer w /\
    turn 1 1 [Wr DLC_Transmit_Command 0x02] w w'.
Proof.
  intros H25 Hst.
  rewrite (ReadMessage_body_code fuel length cc w H25 Hst).
  destruct (take_completion_code_turn w) as (w' & E & Hb & Ht).
  exists w'. unfold bind. rewrite E. split; [|split; assumption].
  destruct (length =? 0); [reflexivity|].
  destruct (Z.land (to_byte (rx_tape w (rx_pos w))) 48 =? 48); reflexivity.
Qed.

Lemma drain_overflow_once fuel w :
  exists w',
    drain_overflow (S fuel) w = Ok tt w' /\
    MessageBuffer w' = MessageBuffer w /\ turn 1 0 [] w w'.
Proof.
  unfold drain_overflow. cbn [while_loop].
  unfold bind, read_DLC_Status, ret.
  change (Z.b2z (0xE0 =? 0x60)) with 0. rewrite Z.land_0_r.
  cbn [Z.eqb negb]. eexists. split; [reflexivity|]. split; [reflexivity|].
  constructor; cbn [status_pos rx_pos status_tape rx_tape];
    rewrite ?Nat.add_0_r, ?Nat.add_1_r, ?app_nil_r; reflexivity.
Qed.

Lemma ReadMessage_body_overflow fuel length cc w :
  length <> 25 ->
  rx_status_at w (status_pos w) = 3 ->
  exists w',
    ReadMessage_body (S fuel) length cc w = Ok (Return (0, cc, 0x0B)) w' /\
    MessageBuffer w' = MessageBuffer w /\ turn 2 0 [] w w'.
Proof.
  intros H25 Hst.
  rewrite (ReadMessage_body_poll (S fuel) length cc w H25), Hst.
  destruct (read_DLC_Status_eq w) as (w0 & E0 & Hb0 & Hrt0 & Hrp0 & Hst0 & Hsp0 & Hp0).
  destruct (drain_overflow_once fuel w0) as (w1 & E1 & Hb1 & Ht1).
  exists w1. unfold bind. rewrite E0.
  change (ReadMessage_switch (S fuel) length cc 3)
    with (drain_overflow (S fuel) ;;
          ret (@Return (Z * Z) (Z * Z * Z) (0, cc, 0x0B))).
  unfold bind. rewrite E1. split; [reflexivity|]. split; [congruence|].
  assert (T0 : turn 1 0 [] w w0)
    by (constructor; rewrite ?Nat.add_0_r, ?Nat.add_1_r, ?app_nil_r;
        assumption).
  exact (turn_trans _ _ _ _ _ _ _ _ _ T0 Ht1).
Qed.

Lemma receives_refl w : receives w w.
Proof.
  constructor; auto. exists []. split; [now rewrite app_nil_r | constructor].
Qed.

Lemma receives_trans w1 w2 w3 :
  receives w1 w2 -> receives w2 w3 -> receives w1 w3.
Proof.
  intros [b1 (l1 & p1 & a1) s1 r1] [b2 (l2 & p2 & a2) s2 r2].
  constructor; try congruence.
  - intros i Hi. rewrite b2, b1 by exact Hi. reflexivity.
  - exists (l1 ++ l2). split; [now rewrite p2, p1, app_assoc|].
    apply Forall_app. auto.
Qed.

Lemma turn_receives ds dr l w w' :
  turn ds dr l w w' -> Forall is_acknowledge l ->
  (forall i, i < 0 \/ 25 <= i -> MessageBuffer w' i = MessageBuffer w i) ->
  receives w w'.
Proof.
  intros [a b c d e] Hl Hb. constructor; eauto.
Qed.

Lemma undisturbed_receives w w' : undisturbed w w' -> receives w w'.
Proof.
  intros H. apply (turn_receives 0 0 [] w w' (undisturbed_turn _ _ H));
    [constructor|].
  intros i _. now rewrite (undisturbed_buffer _ _ H).
Qed.

Lemma ReadMessage_body_safe fuel length cc w :
  0 <= length <= 25 ->
  exists r w',
    ReadMessage_body (S fuel) length cc w = Ok r w' /\
    receives w w' /\ flow_in_range r.
Proof.
  intros Hlen.
  destruct (Z.eq_dec length 25) as [->|H25].
  { exists (Return (25, cc, 0xEE)), w.
    split; [reflexivity|]. split; [apply receives_refl|].
    cbn. unfold is_read_state. lia. }
  pose proof (rx_status_range w (status_pos w)) as Hr.
  assert (Hcase : rx_status_at w (status_pos w) = 0 \/
                  is_data_status (rx_status_at w (status_pos w)) \/
                  rx_status_at w (status_pos w) = 3 \/
                  is_completion_status (rx_status_at w (status_pos w)))
    by (unfold is_data_status, is_completion_status; lia).
  destruct Hcase as [H0 | [Hd | [H3 | Hc]]].
  - destruct (ReadMessage_body_idle (S fuel) length cc w H25 H0)
      as (w' & E & Hb & Ht).
    exists (Next (length, cc)), w'. split; [exact E|]. split; [|cbn; lia].
    apply (turn_receives _ _ _ _ _ Ht); [constructor|].
    intros i _. now rewrite Hb.
  - destruct (ReadMessage_body_data (S fuel) length cc w H25
                ltac:(unfold MessageBufferSize; lia) Hd)
      as (w' & E & Hb & Ht).
    exists (Next (length + 1, cc)), w'. split; [exact E|]. split; [|cbn; lia].
    apply (turn_receives _ _ _ _ _ Ht); [constructor|].
    intros i Hi. rewrite Hb. apply upd_other. lia.
  - destruct (ReadMessage_body_overflow fuel length cc w H25 H3)
      as (w' & E & Hb & Ht).
    exists (Return (0, cc, 0x0B)), w'. split; [exact E|]. split.
    + apply (turn_receives _ _ _ _ _ Ht); [constructor|].
      intros i _. now rewrite Hb.
    + cbn. unfold is_read_state. lia.
  - destruct (ReadMessage_body_completion (S fuel) length cc w H25 Hc)
      as (w' & E & Hb & Ht).
    eexists. exists w'. split; [exact E|]. split.
    + apply (turn_receives _ _ _ _ _ Ht);
        [repeat constructor | intros i _; now rewrite Hb].
    + destruct (length =? 0); [cbn; lia|].
      destruct (Z.land _ 48 =? 48); cbn; unfold is_read_state; lia.
Qed.

Lemma ReadMessage_loop_safe fuel :
  forall n length cc w,
    0 <= length <= 25 ->
    exists r w',
      ReadMessage_loop (S fuel) n length cc w = Ok r w' /\
      receives w w' /\ flow_in_range r.
Proof.
  induction n as [|n IH]; intros length cc w Hlen.
  - exists (Next (length, cc)), w.
    split; [reflexivity|]. split; [apply receives_refl | exact Hlen].
  - destruct (ReadMessage_body_safe fuel length cc w Hlen)
      as (r & w1 & Eb & Hr1 & Hf).
    rewrite (ReadMessage_loop_step (S fuel) n length cc w r w1 Eb).
    destruct r as [[l c]|x].
    + destruct (ScratchWatchdog_undisturbed w1) as (w2 & Es & Hu & _).
      destruct (IH l c w2 Hf) as (r' & w3 & El & Hr3 & Hf').
      exists r', w3. unfold bind. rewrite Es. split; [exact El|].
      split; [|exact Hf'].
      exact (receives_trans _ _ _ Hr1
               (receives_trans _ _ _ (undisturbed_receives _ _ Hu) Hr3)).
    + exists (Return x), w1. auto.
Qed.

(** X12.  [ReadMessage] always returns, whatever the line controller
    reports.  The value it returns is between 0 and 25 and the read state
    is one of 1, 2, 0x0A, 0x0B and 0xEE; it writes the staging buffer at
    indices 0 to 24 only; and all it sends to the line controller is
    acknowledge commands (0x02 to the command port), never a data byte. *)
Theorem ReadMessage_always_returns fuel cc w :
  exists ret cc' rs w',
    ReadMessage (S fuel) cc w = Ok (ret, cc', rs) w' /\
    0 <= ret <= 25 /\ is_read_state rs /\
    (forall i, i < 0 \/ 25 <= i -> MessageBuffer w' i = MessageBuffer w i) /\
    exists sent,
      port_writes w' = port_writes w ++ sent /\ Forall is_acknowledge sent.
Proof.
  destruct (ScratchWatchdog_undisturbed w) as (w0 & Es & Hu & _).
  destruct (ReadMessage_loop_safe fuel (Z.to_nat (30 * 1000)) 0 cc w0
              ltac:(lia)) as (r & w' & El & Hr & Hf).
  pose proof (receives_trans _ _ _ (undisturbed_receives _ _ Hu) Hr)
    as [Hb Hp _ _].
  unfold ReadMessage, bind. rewrite Es, El.
  destruct r as [[l c]|[[ret c] rs]]; cbn in Hf.
  - exists l, c, 0x0A, w'. split; [reflexivity|].
    split; [exact Hf|]. split; [unfold is_read_state; lia|]. auto.
  - exists ret, c, rs, w'. split; [reflexivity|].
    destruct Hf. auto.
Qed.

Lemma rx_status_at_tape w w' n :
  status_tape w' = status_tape w -> rx_status_at w' n = rx_status_at w n.
Proof. intros H. unfold rx_status_at. now rewrite H. Qed.

(** [n] turns that each find a data byte. *)
Lemma ReadMessage_loop_data_run fuel :
  forall n m length cc w,
    0 <= length -> length + Z.of_nat n <= 25 ->
    (forall j, (j < n)%nat ->
       is_data_status (rx_status_at w (status_pos w + j))) ->
    exists w',
      ReadMessage_loop fuel (n + m) length cc w =
      ReadMessage_loop fuel m (length + Z.of_nat n) cc w' /\
      turn n n [] w w' /\
      (forall j, (j < n)%nat ->
         MessageBuffer w' (length + Z.of_nat j)
         = to_byte (rx_tape w (rx_pos w + j))) /\
      (forall i, i < length \/ length + Z.of_nat n <= i ->
         MessageBuffer w' i = MessageBuffer w i).
Proof.
  induction n as [|n IH]; intros m length cc w Hlen Hcap Hdata.
  - exists w. rewrite Z.add_0_r. split; [reflexivity|].
    split; [apply turn_refl|]. split; [intros j Hj; lia | reflexivity].
  - pose proof (Hdata O ltac:(lia)) as H0. rewrite Nat.add_0_r in H0.
    destruct (ReadMessage_body_data fuel length cc w ltac:(lia)
                ltac:(unfold MessageBufferSize; lia) H0)
      as (w1 & Eb & Hb1 & Ht1).
    destruct (ScratchWatchdog_undisturbed w1) as (w2 & Es & Hu & _).
    pose proof (turn_trans _ _ _ _ _ _ _ _ _ Ht1 (undisturbed_turn _ _ Hu))
      as Ht2.
    cbn [Nat.add app] in Ht2.
    destruct (IH m (length + 1) cc w2 ltac:(lia) ltac:(lia))
      as (w3 & El & Ht3 & Hnew & Hold).
    { intros j Hj.
      rewrite (rx_status_at_tape w w2) by apply Ht2.
      rewrite (turn_status_pos _ _ _ _ _ Ht2).
      replace (status_pos w + 1 + j)%nat with (status_pos w + S j)%nat by lia.
      apply Hdata. lia. }
    exists w3.
    cbn [Nat.add].
    rewrite (ReadMessage_loop_step fuel (n + m) length cc w _ w1 Eb).
    unfold bind. rewrite Es, El.
    replace (length + 1 + Z.of_nat n) with (length + Z.of_nat (S n)) by lia.
    split; [reflexivity|].
    split.
    { pose proof (turn_trans _ _ _ _ _ _ _ _ _ Ht2 Ht3) as Ht.
      cbn [Nat.add app] in Ht. exact Ht. }
    assert (Hb2 : MessageBuffer w2 =
                  upd (MessageBuffer w) length (to_byte (rx_tape w (rx_pos w))))
      by (rewrite (undisturbed_buffer _ _ Hu); exact Hb1).
    split.
    + intros [|j] Hj.
      * rewrite Z.add_0_r, Nat.add_0_r, Hold by lia.
        rewrite Hb2. apply upd_same.
      * replace (length + Z.of_nat (S j)) with (length + 1 + Z.of_nat j)
          by lia.
        rewrite Hnew by lia.
        rewrite (turn_rx_tape _ _ _ _ _ Ht2), (turn_rx_pos _ _ _ _ _ Ht2).
        do 2 f_equal. lia.
    + intros i Hi. rewrite Hold by lia. rewrite Hb2.
      apply upd_other. lia.
Qed.

(** [n] turns that each find nothing. *)
Lemma ReadMessage_loop_idle_run fuel :
  forall n m length cc w,
    length <> 25 ->
    (forall j, (j < n)%nat -> rx_status_at w (status_pos w + j) = 0) ->
    exists w',
      ReadMessage_loop fuel (n + m) length cc w =
      ReadMessage_loop fuel m length cc w' /\
      turn n 0 [] w w' /\ MessageBuffer w' = MessageBuffer w.
Proof.
  induction n as [|n IH]; intros m length cc w H25 Hidle.
  - exists w. split; [reflexivity|]. split; [apply turn_refl | reflexivity].
  - pose proof (Hidle O ltac:(lia)) as H0. rewrite Nat.add_0_r in H0.
    destruct (ReadMessage_body_idle fuel length cc w H25 H0)
      as (w1 & Eb & Hb1 & Ht1).
    destruct (ScratchWatchdog_undisturbed w1) as (w2 & Es & Hu & _).
    pose proof (turn_trans _ _ _ _ _ _ _ _ _ Ht1 (undisturbed_turn _ _ Hu))
      as Ht2.
    cbn [Nat.add app] in Ht2.
    destruct (IH m length cc w2 H25) as (w3 & El & Ht3 & Hb3).
    { intros j Hj.
      rewrite (rx_status_at_tape w w2) by apply Ht2.
      rewrite (turn_status_pos _ _ _ _ _ Ht2).
      replace (status_pos w + 1 + j)%nat with (status_pos w + S j)%nat by lia.
      apply Hidle. lia. }
    exists w3. cbn [Nat.add].
    rewrite (ReadMessage_loop_step fuel (n + m) length cc w _ w1 Eb).
    unfold bind. rewrite Es, El. split; [reflexivity|].
    split.
    + pose proof (turn_trans _ _ _ _ _ _ _ _ _ Ht2 Ht3) as Ht.
      cbn [Nat.add app] in Ht. exact Ht.
    + rewrite Hb3, (undisturbed_buffer _ _ Hu). exact Hb1.
Qed.

Lemma ReadMessage_unfold fuel cc w :
  exists w0,
    undisturbed w w0 /\
    ReadMessage fuel cc w =
    match ReadMessage_loop fuel (Z.to_nat (30 * 1000)) 0 cc w0 with
    | Ok (Next (length, completionCode)) w' =>
        Ok (length, completionCode, 0x0A) w'
    | Ok (Return x) w' => Ok x w'
    | Fault e => Fault e
    end.
Proof.
  destruct (ScratchWatchdog_undisturbed w) as (w0 & Es & Hu & _).
  exists w0. split; [exact Hu|].
  unfold ReadMessage, bind. rewrite Es.
  destruct (ReadMessage_loop fuel (Z.to_nat (30 * 1000)) 0 cc w0)
    as [[[l c]|x] w'|e]; reflexivity.
Qed.

(** X13.  A frame received: when the line controller gives [n] data bytes,
    [1 <= n <= 24], and then a completion code, [ReadMessage] returns with
    the [n] bytes at indices 0 to [n-1] of the staging buffer, in the order
    they were read, the rest of the buffer as it was, the completion code
    stored for the caller and acknowledged once.  It returns [n] with read
    state 1, or 0 with read state 2 when the code has both bits of 0x30
    set. *)
Theorem ReadMessage_receives_frame fuel cc w n :
  (1 <= n <= 24)%nat ->
  (forall j, (j < n)%nat ->
     is_data_status (rx_status_at w (status_pos w + j))) ->
  is_completion_status (rx_status_at w (status_pos w + n)) ->
  exists ret rs w',
    ReadMessage fuel cc w
    = Ok (ret, to_byte (rx_tape w (rx_pos w + n)), rs) w' /\
    (Z.land (to_byte (rx_tape w (rx_pos w + n))) 0x30 = 0x30 ->
     ret = 0 /\ rs = 2) /\
    (Z.land (to_byte (rx_tape w (rx_pos w + n))) 0x30 <> 0x30 ->
     ret = Z.of_nat n /\ rs = 1) /\
    (forall j, (j < n)%nat ->
       MessageBuffer w' (Z.of_nat j) = to_byte (rx_tape w (rx_pos w + j))) /\
    (forall i, i < 0 \/ Z.of_nat n <= i ->
       MessageBuffer w' i = MessageBuffer w i) /\
    port_writes w' = port_writes w ++ [Wr DLC_Transmit_Command 0x02].
Proof.
  intros Hn Hdata Hcode.
  destruct (ReadMessage_unfold fuel cc w) as (w0 & Hu & ->).
  pose proof (undisturbed_turn _ _ Hu) as Ht0.
  remember (Z.to_nat (30 * 1000)) as N eqn:EN.
  replace N with (n + S (N - S n))%nat by lia.
  destruct (ReadMessage_loop_data_run fuel n (S (N - S n)) 0 cc w0)
    as (w1 & -> & Ht1 & Hnew & Hold); [lia | lia | |].
  { intros j Hj. rewrite (rx_status_at_tape w w0) by apply Ht0.
    rewrite (turn_status_pos _ _ _ _ _ Ht0), Nat.add_0_r. now apply Hdata. }
  pose proof (turn_trans _ _ _ _ _ _ _ _ _ Ht0 Ht1) as Ht01.
  cbn [Nat.add app] in Ht01.
  destruct (ReadMessage_body_completion fuel (0 + Z.of_nat n) cc w1)
    as (w2 & Eb & Hb2 & Ht2); [lia | |].
  { rewrite (rx_status_at_tape w w1) by apply Ht01.
    now rewrite (turn_status_pos _ _ _ _ _ Ht01). }
  pose proof (turn_trans _ _ _ _ _ _ _ _ _ Ht01 Ht2) as Ht.
  cbn [Nat.add app] in Ht.
  rewrite (turn_rx_tape _ _ _ _ _ Ht01), (turn_rx_pos _ _ _ _ _ Ht01) in Eb.
  rewrite (ReadMessage_loop_step fuel _ _ cc w1 _ w2 Eb).
  replace (0 + Z.of_nat n =? 0) with false by (symmetry; apply Z.eqb_neq; lia).
  assert (Hbuf : (forall j, (j < n)%nat ->
                    MessageBuffer w2 (Z.of_nat j)
                    = to_byte (rx_tape w (rx_pos w + j))) /\
                 (forall i, i < 0 \/ Z.of_nat n <= i ->
                    MessageBuffer w2 i = MessageBuffer w i)).
  { split.
    - intros j Hj. rewrite Hb2. specialize (Hnew j Hj).
      rewrite Z.add_0_l in Hnew. rewrite Hnew.
      rewrite (turn_rx_tape _ _ _ _ _ Ht0), (turn_rx_pos _ _ _ _ _ Ht0).
      now rewrite Nat.add_0_r.
    - intros i Hi. rewrite Hb2, Hold by lia.
      now rewrite (undisturbed_buffer _ _ Hu). }
  destruct Hbuf as [Hb Hf].
  destruct (Z.eqb_spec (Z.land (to_byte (rx_tape w (rx_pos w + n))) 48) 48)
    as [E|E].
  - exists 0, 2, w2. split; [reflexivity|].
    split; [auto|]. split; [intros H; contradiction|].
    split; [exact Hb|]. split; [exact Hf | apply Ht].
  - exists (0 + Z.of_nat n), 1, w2. split; [reflexivity|].
    split; [intros H; contradiction|]. split; [intros _; split; lia|].
    split; [exact Hb|]. split; [exact Hf | apply Ht].
Qed.

(** Three data bytes, then the completion code 0x40. *)
Lemma ReadMessage_receives_frame_of_three :
  exists ret rs w',
    ReadMessage 1 0 frame_of_three
    = Ok (ret, to_byte (rx_tape frame_of_three (rx_pos frame_of_three + 3)),
          rs) w' /\
    (Z.land (to_byte (rx_tape frame_of_three (rx_pos frame_of_three + 3)))
       0x30 = 0x30 ->
     ret = 0 /\ rs = 2) /\
    (Z.land (to_byte (rx_tape frame_of_three (rx_pos frame_of_three + 3)))
       0x30 <> 0x30 ->
     ret = Z.of_nat 3 /\ rs = 1) /\
    (forall j, (j < 3)%nat ->
       MessageBuffer w' (Z.of_nat j)
       = to_byte (rx_tape frame_of_three (rx_pos frame_of_three + j))) /\
    (forall i, i < 0 \/ Z.of_nat 3 <= i ->
       MessageBuffer w' i = MessageBuffer frame_of_three i) /\
    port_writes w' =
    port_writes frame_of_three ++ [Wr DLC_Transmit_Command 0x02].
Proof.
  apply (ReadMessage_receives_frame 1 0 frame_of_three 3).
  - lia.
  - intros j Hj. unfold rx_status_at. cbn [frame_of_three world_of status_tape status_pos Nat.add].
    replace (j <? 3)%nat with true by (symmetry; apply Nat.ltb_lt; lia).
    left. reflexivity.
  - right. left. reflexivity.
Defined.

(** X14.  The debug cap: when the line controller gives 25 data bytes in a
    row, [ReadMessage] returns 25 with read state 0xEE at its next turn,
    the 25 bytes at indices 0 to 24 of the staging buffer, having read
    exactly 25 bytes from the receive port and sent nothing; the caller's
    completion code is left as it was. *)
Theorem ReadMessage_debug_cap fuel cc w :
  (forall j, (j < 25)%nat ->
     is_data_status (rx_status_at w (status_pos w + j))) ->
  exists w',
    ReadMessage fuel cc w = Ok (25, cc, 0xEE) w' /\
    (forall j, (j < 25)%nat ->
       MessageBuffer w' (Z.of_nat j) = to_byte (rx_tape w (rx_pos w + j))) /\
    (forall i, i < 0 \/ 25 <= i -> MessageBuffer w' i = MessageBuffer w i) /\
    rx_pos w' = (rx_pos w + 25)%nat /\
    port_writes w' = port_writes w.
Proof.
  intros Hdata.
  destruct (ReadMessage_unfold fuel cc w) as (w0 & Hu & ->).
  pose proof (undisturbed_turn _ _ Hu) as Ht0.
  remember (Z.to_nat (30 * 1000)) as N eqn:EN.
  replace N with (25 + S (N - 26))%nat by lia.
  destruct (ReadMessage_loop_data_run fuel 25 (S (N - 26)) 0 cc w0)
    as (w1 & -> & Ht1 & Hnew & Hold); [lia | lia | |].
  { intros j Hj. rewrite (rx_status_at_tape w w0) by apply Ht0.
    rewrite (turn_status_pos _ _ _ _ _ Ht0), Nat.add_0_r. now apply Hdata. }
  pose proof (turn_trans _ _ _ _ _ _ _ _ _ Ht0 Ht1) as Ht.
  cbn [Nat.add app] in Ht.
  change (0 + Z.of_nat 25) with 25.
  rewrite (ReadMessage_loop_step fuel _ 25 cc w1 _ w1
             (ReadMessage_body_cap fuel cc w1)).
  exists w1. split; [reflexivity|]. split; [|split; [|split]].
  - intros j Hj. specialize (Hnew j Hj). rewrite Z.add_0_l in Hnew.
    rewrite Hnew.
    rewrite (turn_rx_tape _ _ _ _ _ Ht0), (turn_rx_pos _ _ _ _ _ Ht0).
    now rewrite Nat.add_0_r.
  - intros i Hi. rewrite Hold by (change (0 + Z.of_nat 25) with 25; lia).
    now rewrite (undisturbed_buffer _ _ Hu).
  - apply Ht.
  - rewrite (turn_ports _ _ _ _ _ Ht). apply app_nil_r.
Qed.

(** Data bytes without end. *)
Lemma ReadMessage_debug_cap_flood :
  exists w',
    ReadMessage 1 0x77 flood = Ok (25, 0x77, 0xEE) w' /\
    (forall j, (j < 25)%nat ->
       MessageBuffer w' (Z.of_nat j)
       = to_byte (rx_tape flood (rx_pos flood + j))) /\
    (forall i, i < 0 \/ 25 <= i ->
       MessageBuffer w' i = MessageBuffer flood i) /\
    rx_pos w' = (rx_pos flood + 25)%nat /\
    port_writes w' = port_writes flood.
Proof.
  apply (ReadMessage_debug_cap 1 0x77 flood).
  intros j Hj. left. reflexivity.
Defined.

(** X15.  A message cut short: when the line controller gives [n] data
    bytes, [n <= 24], and then nothing for the rest of the 30,000 turns,
    [ReadMessage] returns [n] with read state 0x0A, the [n] bytes at
    indices 0 to [n-1] of the staging buffer and the rest of it as it was;
    the caller's completion code is left as it was and nothing was sent.
    With [n = 0]: on a silent bus it returns 0 with read state 0x0A and an
    untouched buffer. *)
Theorem ReadMessage_times_out_on_silence fuel cc w n :
  (n <= 24)%nat ->
  (forall j, (j < n)%nat ->
     is_data_status (rx_status_at w (status_pos w + j))) ->
  (forall j, (n <= j < Z.to_nat (30 * 1000))%nat ->
     rx_status_at w (status_pos w + j) = 0) ->
  exists w',
    ReadMessage fuel cc w = Ok (Z.of_nat n, cc, 0x0A) w' /\
    (forall j, (j < n)%nat ->
       MessageBuffer w' (Z.of_nat j) = to_byte (rx_tape w (rx_pos w + j))) /\
    (forall i, i < 0 \/ Z.of_nat n <= i ->
       MessageBuffer w' i = MessageBuffer w i) /\
    port_writes w' = port_writes w.
Proof.
  intros Hn Hdata Hidle.
  destruct (ReadMessage_unfold fuel cc w) as (w0 & Hu & ->).
  pose proof (undisturbed_turn _ _ Hu) as Ht0.
  remember (Z.to_nat (30 * 1000)) as N eqn:EN.
  destruct (ReadMessage_loop_data_run fuel n ((N - n) + 0) 0 cc w0)
    as (w1 & Erun & Ht1 & Hnew & Hold); [lia | lia | |].
  { intros j Hj. rewrite (rx_status_at_tape w w0) by apply Ht0.
    rewrite (turn_status_pos _ _ _ _ _ Ht0), Nat.add_0_r. now apply Hdata. }
  replace (n + ((N - n) + 0))%nat with N in Erun by lia.
  rewrite Erun.
  pose proof (turn_trans _ _ _ _ _ _ _ _ _ Ht0 Ht1) as Ht01.
  cbn [Nat.add app] in Ht01.
  destruct (ReadMessage_loop_idle_run fuel (N - n) 0 (0 + Z.of_nat n) cc w1)
    as (w2 & -> & Ht2 & Hb2); [lia | |].
  { intros j Hj. rewrite (rx_status_at_tape w w1) by apply Ht01.
    rewrite (turn_status_pos _ _ _ _ _ Ht01).
    rewrite <- Nat.add_assoc. apply Hidle. lia. }
  pose proof (turn_trans _ _ _ _ _ _ _ _ _ Ht01 Ht2) as Ht.
  cbn [app] in Ht.
  exists w2. cbn [ReadMessage_loop]. unfold ret.
  rewrite Z.add_0_l. split; [reflexivity|]. split; [|split].
  - intros j Hj. rewrite Hb2. specialize (Hnew j Hj).
    rewrite Z.add_0_l in Hnew. rewrite Hnew.
    rewrite (turn_rx_tape _ _ _ _ _ Ht0), (turn_rx_pos _ _ _ _ _ Ht0).
    now rewrite Nat.add_0_r.
  - intros i Hi. rewrite Hb2, Hold by lia.
    now rewrite (undisturbed_buffer _ _ Hu).
  - rewrite (turn_ports _ _ _ _ _ Ht). apply app_nil_r.
Qed.

(** Three bytes, then silence. *)
Lemma ReadMessage_times_out_after_three :
  exists w',
    ReadMessage 1 0x77 three_then_silence = Ok (Z.of_nat 3, 0x77, 0x0A) w' /\
    (forall j, (j < 3)%nat ->
       MessageBuffer w' (Z.of_nat j)
       = to_byte (rx_tape three_then_silence
                    (rx_pos three_then_silence + j))) /\
    (forall i, i < 0 \/ Z.of_nat 3 <= i ->
       MessageBuffer w' i = MessageBuffer three_then_silence i) /\
    port_writes w' = port_writes three_then_silence.
Proof.
  apply (ReadMessage_times_out_on_silence 1 0x77 three_then_silence 3).
  - lia.
  - intros j Hj. unfold rx_status_at.
    cbn [three_then_silence world_of status_tape status_pos Nat.add].
    replace (j <? 3)%nat with true by (symmetry; apply Nat.ltb_lt; lia).
    left. reflexivity.
  - intros j Hj. unfold rx_status_at.
    cbn [three_then_silence world_of status_tape status_pos Nat.add].
    replace (j <? 3)%nat with false by (symmetry; apply Nat.ltb_ge; lia).
    reflexivity.
Defined.

(** ** [TryReadNextByte] *)

Lemma try_read_result_later data cc w0 w x w' :
  silent w0 w -> try_read_result data cc w x w' ->
  try_read_result data cc w0 x w'.
Proof.
  intros [Hb Hp Hr Ht _] (Hb' & Ht' & H).
  destruct x as [[[ret d] c] ty].
  split; [congruence|]. split; [congruence|].
  rewrite <- Hr, <- Ht, <- Hp. exact H.
Qed.

Lemma TryReadNextByte_body_cases fuel data cc w :
  exists r w',
    TryReadNextByte_body (S fuel) data cc w = Ok r w' /\
    match r with
    | Next _ => silent w w'
    | Return x => try_read_result data cc w x w'
    end.
Proof.
  assert (Hpoll : TryReadNextByte_body (S fuel) data cc w =
                  (_ <- read_DLC_Status ;;
                   TryReadNextByte_switch (S fuel) data cc
                     (rx_status_at w (status_pos w))) w) by reflexivity.
  rewrite Hpoll. clear Hpoll.
  pose proof (rx_status_range w (status_pos w)) as Hr.
  assert (Hcase : rx_status_at w (status_pos w) = 0 \/
                  is_data_status (rx_status_at w (status_pos w)) \/
                  rx_status_at w (status_pos w) = 3 \/
                  is_completion_status (rx_status_at w (status_pos w)))
    by (unfold is_data_status, is_completion_status; lia).
  destruct Hcase as [-> | [Hd | [-> | Hc]]].
  - eexists. eexists. split; [reflexivity|].
    constructor; reflexivity.
  - assert (E : TryReadNextByte_switch (S fuel) data cc
                  (rx_status_at w (status_pos w)) =
                (d <- read_DLC_Receive_FIFO ;;
                 ret (Return (1, d, cc, MessageData))))
      by (destruct Hd as [-> | [-> | ->]]; reflexivity).
    rewrite E. eexists. eexists. split; [reflexivity|].
    repeat split.
  - destruct (read_DLC_Status_eq w)
      as (w0 & E0 & Hb0 & Hrt0 & Hrp0 & Hst0 & Hsp0 & Hp0).
    destruct (drain_overflow_once fuel w0) as (w1 & E1 & Hb1 & [a b c d e]).
    exists (Return (0, 0, 0, Overflow)), w1. unfold bind. rewrite E0.
    change (TryReadNextByte_switch (S fuel) data cc 3)
      with (drain_overflow (S fuel) ;;
            ret (@Return unit (Z * Z * Z * ReadType) (0, 0, 0, Overflow))).
    unfold bind. rewrite E1. split; [reflexivity|].
    rewrite Nat.add_0_r in d. rewrite app_nil_r in e.
    repeat split; congruence.
  - assert (E : TryReadNextByte_switch (S fuel) data cc
                  (rx_status_at w (status_pos w)) =
                (c <- read_DLC_Receive_FIFO ;;
                 write_reg DLC_Transmit_Command 0x02 ;;
                 ret (Return (1, data, c, CompletionCode))))
      by (destruct Hc as [-> | [-> | ->]]; reflexivity).
    rewrite E. eexists. eexists. split; [reflexivity|].
    repeat split.
Qed.

Lemma TryReadNextByte_loop_cases fuel data cc :
  forall n w,
    exists r w',
      TryReadNextByte_loop (S fuel) n data cc w = Ok r w' /\
      match r with
      | Next _ => silent w w'
      | Return x => try_read_result data cc w x w'
      end.
Proof.
  induction n as [|n IH]; intros w.
  - exists (Next tt), w. split; [reflexivity | apply silent_refl].
  - destruct (TryReadNextByte_body_cases fuel data cc w)
      as (r & w1 & Eb & Hr).
    cbn [TryReadNextByte_loop]. unfold bind at 1. rewrite Eb.
    destruct r as [[]|x].
    + destruct (ScratchWatchdog_undisturbed w1) as (w2 & Es & Hu & _).
      destruct (IH w2) as (r' & w3 & El & Hr').
      exists r', w3. unfold bind. rewrite Es. split; [exact El|].
      pose proof (silent_trans _ _ _ Hr (undisturbed_silent _ _ Hu)) as Hs.
      destruct r' as [[]|x'].
      * exact (silent_trans _ _ _ Hs Hr').
      * exact (try_read_result_later _ _ _ _ _ _ Hs Hr').
    + exists (Return x), w1. split; [reflexivity | exact Hr].
Qed.

(** With [status] a cell of its own, [TryReadNextByte] always returns, and
    what it hands back is consistent.  It returns 1 exactly when it took one
    byte from the receive port: a data byte, stored in [*data] with type
    MessageData and
    [*completionCode] left alone, or a completion code, stored in
    [*completionCode] with type CompletionCode, acknowledged, and [*data]
    left alone.  Otherwise (Overflow, or Silence after 1,000 turns) it
    returns 0 with both set to 0, having taken nothing from the receive
    port and sent nothing.  It never writes the staging buffer. *)
Theorem TryReadNextByte_result fuel data cc w :
  exists x w',
    TryReadNextByte (S fuel) data cc w = Ok x w' /\
    try_read_result data cc w x w'.
Proof.
  destruct (TryReadNextByte_loop_cases fuel data cc (Z.to_nat 1000) w)
    as (r & w' & El & Hr).
  unfold TryReadNextByte, bind. rewrite El.
  destruct r as [[]|x].
  - exists (0, 0, 0, Silence), w'. split; [reflexivity|].
    destruct Hr as [Hb Hp Hrp Hrt _]. repeat split; assumption.
  - exists x, w'. split; [reflexivity | exact Hr].
Qed.

(** ** How long [WriteMessage] polls *)

Lemma polled_refl w : polled_at_most 0 w w.
Proof. unfold polled_at_most. split; [lia | reflexivity]. Qed.

Lemma polled_trans k1 k2 w1 w2 w3 :
  polled_at_most k1 w1 w2 -> polled_at_most k2 w2 w3 ->
  polled_at_most (k1 + k2) w1 w3.
Proof.
  unfold polled_at_most. intros [H1 R1] [H2 R2]. split; [lia | congruence].
Qed.

Lemma polled_weaken k k' w w' :
  k <= k' -> polled_at_most k w w' -> polled_at_most k' w w'.
Proof. unfold polled_at_most. intros Hk [H R]. split; [lia | exact R]. Qed.

Lemma undisturbed_polled w w' : undisturbed w w' -> polled_at_most 0 w w'.
Proof.
  intros [_ _ _ Hs _ Hr]. unfold polled_at_most. rewrite Hs.
  split; [lia | exact Hr].
Qed.

Lemma buffer_only_polled w w' : buffer_only w w' -> polled_at_most 0 w w'.
Proof.
  intros (_ & _ & _ & Hs & _ & Hr). unfold polled_at_most. rewrite Hs.
  split; [lia | exact Hr].
Qed.

Lemma post_write_reg_polled r v w :
  post (write_reg r v) w (fun _ w' => polled_at_most 0 w w').
Proof.
  unfold post, write_reg, polled_at_most.
  destruct r; cbn [log status_pos rx_pos]; (split; [lia | reflexivity]).
Qed.

Lemma post_read_DLC_Status_polled w :
  post read_DLC_Status w (fun _ w' => polled_at_most 1 w w').
Proof.
  unfold post, read_DLC_Status, polled_at_most. cbn [status_pos rx_pos].
  split; [lia | reflexivity].
Qed.

Lemma post_spin_polled n w :
  0 <= n ->
  post (for_range 0 n tt (fun _ _ => ScratchWatchdog ;; WasteTime)) w
       (fun _ w' => polled_at_most 0 w w').
Proof.
  intros Hn.
  apply (post_for_range (fun _ _ => ScratchWatchdog ;; WasteTime)
           (fun _ _ w' => polled_at_most 0 w w'));
    [exact Hn | apply polled_refl |].
  intros i a w0 _ H0.
  step post_ScratchWatchdog_undisturbed. intros u w1 [H1 _].
  eapply post_weaken; [apply post_WasteTime_undisturbed|].
  intros u' w2 [H2 _].
  exact (polled_trans 0 0 _ _ _ H0
           (undisturbed_polled _ _ (undisturbed_trans _ _ _ H1 H2))).
Qed.

Lemma post_wait_round_polled n c w :
  0 <= n ->
  post (for_range 0 n tt (fun _ _ => ScratchWatchdog ;; WasteTime) ;;
        ScratchWatchdog ;;
        s' <- read_DLC_Status ;;
        ret (Z.land s' 0x03, c + 1)) w
       (fun r w' => snd r = c + 1 /\ polled_at_most 1 w w').
Proof.
  intros Hn.
  step (post_spin_polled n w Hn). intros u w1 H1.
  step post_ScratchWatchdog_undisturbed. intros u' w2 [H2 _].
  step post_read_DLC_Status_polled. intros s' w3 H3.
  apply post_ret. cbn [snd]. split; [reflexivity|].
  exact (polled_trans 0 1 _ _ _ H1
           (polled_trans 0 1 _ _ _ (undisturbed_polled _ _ H2) H3)).
Qed.

Lemma post_while_polled (test : Z -> bool) (body : Z * Z -> M (Z * Z)) :
  (forall s c w,
      post (body (s, c)) w
           (fun r w' => snd r = c + 1 /\ polled_at_most 1 w w')) ->
  forall fuel s c w,
    Z.max 0 (250 - c) < Z.of_nat fuel ->
    post (while_loop fuel
            (fun '(status, loopCount) =>
               ret (test status && (loopCount <? 250)))
            body (s, c)) w
         (fun _ w' => polled_at_most (Z.max 0 (250 - c)) w w').
Proof.
  intros Hbody. induction fuel as [|fuel IH]; intros s c w Hfuel; [lia|].
  cbn [while_loop]. apply post_bind. apply post_ret.
  destruct (test s && (c <? 250)) eqn:Hc.
  - apply andb_prop in Hc as [_ Hlt%Z.ltb_lt].
    apply post_bind. eapply post_weaken; [apply Hbody|].
    intros [s' c'] w' [Hc' Hs]. cbn [snd] in Hc'. subst c'.
    eapply post_weaken; [apply IH; lia|].
    intros r w'' Hs'. cbv beta in Hs'.
    eapply polled_weaken; [|exact (polled_trans _ _ _ _ _ Hs Hs')]. lia.
  - apply post_ret. eapply polled_weaken; [|apply polled_refl]. lia.
Qed.

Lemma post_backoff_polled s w :
  post (backoff s) w (fun _ w' => polled_at_most 250 w w').
Proof.
  unfold backoff.
  apply (post_while_polled
           (fun status => (status =? 0x02) || (status =? 0x03))).
  - intros s0 c w0. apply (post_wait_round_polled 50 c w0). lia.
  - cbn. lia.
Qed.

Lemma post_flush_wait_polled s w :
  post (flush_wait s) w (fun _ w' => polled_at_most 250 w w').
Proof.
  unfold flush_wait.
  apply (post_while_polled (fun status => negb (status =? 0))).
  - intros s0 c w0. apply (post_wait_round_polled 25 c w0). lia.
  - cbn. lia.
Qed.

Lemma outcome_for_loop {A} (body : Z -> A -> M A)
  (I : Z -> A -> World -> Prop) (F : fault -> Prop) :
  forall n index acc w,
    I index acc w ->
    (forall i a w0, index <= i < index + Z.of_nat n -> I i a w0 ->
       outcome (body i a) w0 (fun a' w' => I (i + 1) a' w') F) ->
    outcome (for_loop n index acc body) w
            (fun a w' => I (index + Z.of_nat n) a w') F.
Proof.
  induction n as [|n IH]; intros index acc w H0 Hstep.
  - cbn [for_loop]. unfold outcome, ret. now rewrite Z.add_0_r.
  - cbn [for_loop]. apply outcome_bind.
    eapply outcome_weaken;
      [apply (Hstep index acc w); [lia | exact H0] | | auto].
    intros a' w' Ha'. cbv beta in Ha'.
    replace (index + Z.of_nat (S n)) with ((index + 1) + Z.of_nat n) by lia.
    apply IH; [exact Ha'|].
    intros i a w0 Hi. apply Hstep. lia.
Qed.

Lemma outcome_send_byte_polled start index w :
  outcome (send_byte start index) w
          (fun _ w' => polled_at_most 251 w w') (fun _ => True).
Proof.
  unfold send_byte. apply outcome_bind. apply outcome_load.
  destruct (peek (MessageBuffer w) start index) as [v|e]; [|exact I].
  apply post_outcome.
  step post_write_reg_polled. intros u0 w0 H0.
  step post_ScratchWatchdog_undisturbed. intros u1 w1 [H1 _].
  step post_read_DLC_Status_polled. intros s w2 H2.
  step post_backoff_polled. intros r w3 H3.
  apply post_ret.
  exact (polled_trans 0 251 _ _ _ H0
           (polled_trans 0 251 _ _ _ (undisturbed_polled _ _ H1)
              (polled_trans 1 250 _ _ _ H2 H3))).
Qed.

Lemma outcome_WriteMessage_polled start length segment w :
  (has_flag segment End = true -> 1 <= length) ->
  outcome (WriteMessage start length segment) w
          (fun _ w' => polled_at_most (251 * Z.max 0 length) w w')
          (fun _ => True).
Proof.
  intros Hend. unfold WriteMessage.
  eapply outcome_after; [apply post_ScratchWatchdog_undisturbed|].
  intros u0 w0 [H0%undisturbed_polled _].
  eapply outcome_after
    with (P := fun _ w' => polled_at_most 0 w0 w').
  { destruct (has_flag segment Start);
      [apply post_write_reg_polled | apply post_ret, polled_refl]. }
  intros u1 w1 H1.
  pose proof (polled_trans 0 0 _ _ _ H0 H1) as H01. cbn in H01.
  clear H0 H1. cbv zeta.
  set (lastIndex := if has_flag segment End then length - 1 else length).
  apply outcome_bind. unfold for_range.
  eapply outcome_weaken;
    [apply (outcome_for_loop (fun index _ => send_byte start index)
              (fun i _ w' => polled_at_most (251 * i) w w')
              (fun _ => True)) | | auto].
  - exact H01.
  - intros i a w2 Hi H2.
    eapply outcome_weaken; [apply outcome_send_byte_polled | | auto].
    intros u w3 H3. cbv beta.
    eapply polled_weaken; [|exact (polled_trans _ _ _ _ _ H2 H3)]. lia.
  - intros [] w2 H2. cbv beta in H2.
    rewrite Z.add_0_l in H2.
    destruct (has_flag segment End) eqn:He.
    + specialize (Hend eq_refl).
      assert (Hl : Z.of_nat (Z.to_nat (lastIndex - 0)) = length - 1)
        by (unfold lastIndex; lia).
      rewrite Hl in H2.
      eapply outcome_after; [apply post_write_reg_polled|].
      intros u3 w3 H3. apply outcome_bind. apply outcome_load.
      destruct (peek (MessageBuffer w3) start (length - 1)) as [v|e];
        [|exact I].
      apply post_outcome.
      step post_write_reg_polled. intros u4 w4 H4.
      step post_WasteTime_undisturbed. intros u5 w5 [H5%undisturbed_polled _].
      step post_write_reg_polled. intros u6 w6 H6.
      step post_write_reg_polled. intros u7 w7 H7.
      step post_read_DLC_Status_polled. intros s w8 H8.
      step post_flush_wait_polled. intros r w9 H9.
      eapply post_weaken; [apply post_ClearMessageBuffer|].
      intros u10 w10 [_ H10%buffer_only_polled].
      pose proof (polled_trans _ _ _ _ _ H2
                   (polled_trans _ _ _ _ _ H3
                      (polled_trans _ _ _ _ _ H4
                         (polled_trans _ _ _ _ _ H5
                            (polled_trans _ _ _ _ _ H6
                               (polled_trans _ _ _ _ _ H7
                                  (polled_trans _ _ _ _ _ H8
                                     (polled_trans _ _ _ _ _ H9 H10))))))))
        as H.
      eapply polled_weaken; [|exact H]. lia.
    + unfold outcome, ret.
      eapply polled_weaken; [|exact H2]. unfold lastIndex. lia.
Qed.

(** X16.  [WriteMessage] never blocks for long: for every readable range
    (of at least one byte when the segment includes End) and whatever the
    line controller reports, it returns after reading the status register
    at most 251 times for each byte of the range, and it never reads the
    receive port. *)
Theorem WriteMessage_polls_are_bounded start length segment w :
  readable w start length ->
  (has_flag segment End = true -> 1 <= length) ->
  exists w',
    WriteMessage start length segment w = Ok tt w' /\
    Z.of_nat (status_pos w) <= Z.of_nat (status_pos w')
    <= Z.of_nat (status_pos w) + 251 * Z.max 0 length /\
    rx_pos w' = rx_pos w.
Proof.
  intros Hr Hend.
  destruct (WriteMessage_returns start length segment w Hr Hend) as [w' E].
  pose proof (outcome_WriteMessage_polled start length segment w Hend) as H.
  unfold outcome in H. rewrite E in H.
  exists w'. split; [exact E | exact H].
Qed.

(** A frame of eight bytes while the transmit buffer stays full. *)
Lemma WriteMessage_polls_are_bounded_when_full :
  exists w',
    WriteMessage (InArray [0x6C; 0xF0; 0x10; 0x60; 1; 2; 3; 4] 0) 8
      Complete tx_full = Ok tt w' /\
    Z.of_nat (status_pos tx_full) <= Z.of_nat (status_pos w')
    <= Z.of_nat (status_pos tx_full) + 251 * Z.max 0 8 /\
    rx_pos w' = rx_pos tx_full.
Proof.
  apply (WriteMessage_polls_are_bounded
           (InArray [0x6C; 0xF0; 0x10; 0x60; 1; 2; 3; 4] 0) 8
           Complete tx_full).
  - apply readable_array; cbn; lia.
  - intros _. lia.
Defined.

(** X17.  Overflow after a partial message: when the line controller gives
    [n] data bytes, [n <= 24], and then reports receive overflow,
    [ReadMessage] returns 0 with read state 0x0B for any test budget of the
    drain loop, although the [n] bytes are in the staging buffer; it has
    taken exactly those [n] bytes from the receive port and sent nothing;
    the caller's completion code is left as it was. *)
Theorem ReadMessage_overflow_after_data fuel cc w n :
  (n <= 24)%nat ->
  (forall j, (j < n)%nat ->
     is_data_status (rx_status_at w (status_pos w + j))) ->
  rx_status_at w (status_pos w + n) = 3 ->
  exists w',
    ReadMessage (S fuel) cc w = Ok (0, cc, 0x0B) w' /\
    (forall j, (j < n)%nat ->
       MessageBuffer w' (Z.of_nat j) = to_byte (rx_tape w (rx_pos w + j))) /\
    (forall i, i < 0 \/ Z.of_nat n <= i ->
       MessageBuffer w' i = MessageBuffer w i) /\
    rx_pos w' = (rx_pos w + n)%nat /\
    status_pos w' = (status_pos w + n + 2)%nat /\
    port_writes w' = port_writes w.
Proof.
  intros Hn Hdata Hover.
  destruct (ReadMessage_unfold (S fuel) cc w) as (w0 & Hu & ->).
  pose proof (undisturbed_turn _ _ Hu) as Ht0.
  remember (Z.to_nat (30 * 1000)) as N eqn:EN.
  replace N with (n + S (N - S n))%nat by lia.
  destruct (ReadMessage_loop_data_run (S fuel) n (S (N - S n)) 0 cc w0)
    as (w1 & -> & Ht1 & Hnew & Hold); [lia | lia | |].
  { intros j Hj. rewrite (rx_status_at_tape w w0) by apply Ht0.
    rewrite (turn_status_pos _ _ _ _ _ Ht0), Nat.add_0_r. now apply Hdata. }
  pose proof (turn_trans _ _ _ _ _ _ _ _ _ Ht0 Ht1) as Ht01.
  cbn [Nat.add app] in Ht01.
  destruct (ReadMessage_body_overflow fuel (0 + Z.of_nat n) cc w1)
    as (w2 & Eb & Hb2 & Ht2); [lia | |].
  { rewrite (rx_status_at_tape w w1) by apply Ht01.
    now rewrite (turn_status_pos _ _ _ _ _ Ht01). }
  pose proof (turn_trans _ _ _ _ _ _ _ _ _ Ht01 Ht2) as Ht.
  cbn [app] in Ht.
  rewrite (ReadMessage_loop_step (S fuel) _ _ cc w1 _ w2 Eb).
  exists w2. split; [reflexivity|]. split; [|split; [|split; [|split]]].
  - intros j Hj. rewrite Hb2. specialize (Hnew j Hj).
    rewrite Z.add_0_l in Hnew. rewrite Hnew.
    rewrite (turn_rx_tape _ _ _ _ _ Ht0), (turn_rx_pos _ _ _ _ _ Ht0).
    now rewrite Nat.add_0_r.
  - intros i Hi. rewrite Hb2, Hold by lia.
    now rewrite (undisturbed_buffer _ _ Hu).
  - rewrite (turn_rx_pos _ _ _ _ _ Ht). lia.
  - rewrite (turn_status_pos _ _ _ _ _ Ht). lia.
  - rewrite (turn_ports _ _ _ _ _ Ht). apply app_nil_r.
Qed.

(** Three bytes, then overflow. *)
Lemma ReadMessage_overflow_after_three :
  exists w',
    ReadMessage 1 0x77 three_then_overflow = Ok (0, 0x77, 0x0B) w' /\
    (forall j, (j < 3)%nat ->
       MessageBuffer w' (Z.of_nat j)
       = to_byte (rx_tape three_then_overflow
                    (rx_pos three_then_overflow + j))) /\
    (forall i, i < 0 \/ Z.of_nat 3 <= i ->
       MessageBuffer w' i = MessageBuffer three_then_overflow i) /\
    rx_pos w' = (rx_pos three_then_overflow + 3)%nat /\
    status_pos w' = (status_pos three_then_overflow + 3 + 2)%nat /\
    port_writes w' = port_writes three_then_overflow.
Proof.
  apply (ReadMessage_overflow_after_data 0 0x77 three_then_overflow 3).
  - lia.
  - intros j Hj. unfold rx_status_at.
    cbn [three_then_overflow world_of status_tape status_pos Nat.add].
    replace (j <? 3)%nat with true by (symmetry; apply Nat.ltb_lt; lia).
    left. reflexivity.
  - reflexivity.
Defined.

(** ** The watchdog during the payload checksum *)

Lemma payload_service_count i :
  0 <= i ->
  (i + 1 + 99) / 100 =
  (i + 99) / 100 + (if Z.rem i 100 =? 0 then 1 else 0).
Proof.
  intros Hi. rewrite Z.rem_mod_nonneg by lia.
  destruct (Z.eqb_spec (i mod 100) 0) as [E|E];
    Z.div_mod_to_equations; lia.
Qed.

Lemma post_payload_loop start length w :
  0 <= length -> readable w start length ->
  post (for_range 0 length 0 (add_payload_byte start)) w
       (fun c w' =>
          0 <= c < 2 ^ 16 /\ undisturbed w w' /\
          Z.of_nat (services w') =
          Z.of_nat (services w) + (length + 99) / 100).
Proof.
  intros Hlen Hread.
  apply (post_for_range (add_payload_byte start)
           (fun i c w' =>
              0 <= c < 2 ^ 16 /\ undisturbed w w' /\
              Z.of_nat (services w') =
              Z.of_nat (services w) + (i + 99) / 100)).
  - exact Hlen.
  - split; [lia|]. split; [apply undisturbed_refl|].
    change ((0 + 99) / 100) with 0. lia.
  - intros i c w0 Hi (Hc & Hu & Hs).
    destruct (readable_anywhere w start length w0 i Hread Hi) as [v Hv].
    unfold add_payload_byte.
    step (ok_post (load start i) w0 v w0
            (fun v' w' => v' = v /\ w' = w0) Hv); [auto|].
    intros v' w1 [-> ->]. cbv zeta.
    pose proof (payload_service_count i ltac:(lia)) as Hcount.
    assert (Hrange : 0 <= to_ushort (c + to_byte v) < 2 ^ 16)
      by (unfold to_ushort; apply Z.mod_pos_bound; lia).
    destruct (Z.rem i 100 =? 0).
    + step post_ScratchWatchdog_undisturbed. intros u w2 [Hu2 Hs2].
      apply post_ret. split; [exact Hrange|].
      split; [exact (undisturbed_trans _ _ _ Hu Hu2)|].
      rewrite Hs2. lia.
    + apply post_bind. apply post_ret. apply post_ret.
      split; [exact Hrange|]. split; [exact Hu|]. lia.
Qed.

(** X18.  For every readable range, [AddReadPayloadChecksum] returns a
    16-bit value having serviced the watchdog once before the pass, once
    after it, and once for each index that is a multiple of 100:
    [2 + (length + 99) / 100] times.  It leaves the staging buffer as it
    is, and neither reads from the line controller nor sends to it. *)
Theorem AddReadPayloadChecksum_services start length w :
  0 <= length -> readable w start length ->
  exists c w',
    AddReadPayloadChecksum start length w = Ok c w' /\
    0 <= c < 2 ^ 16 /\
    Z.of_nat (services w') =
    Z.of_nat (services w) + 2 + (length + 99) / 100 /\
    undisturbed w w'.
Proof.
  intros Hlen Hread.
  assert (H : post (AddReadPayloadChecksum start length) w
                (fun c w' =>
                   0 <= c < 2 ^ 16 /\
                   Z.of_nat (services w') =
                   Z.of_nat (services w) + 2 + (length + 99) / 100 /\
                   undisturbed w w')).
  { unfold AddReadPayloadChecksum.
    step post_ScratchWatchdog_undisturbed. intros u w0 [Hu0 Hs0].
    assert (Hread0 : readable w0 start length).
    { intros i Hi. apply (readable_anywhere w start length w0 i Hread Hi). }
    step (post_payload_loop start length w0 Hlen Hread0).
    intros c w1 (Hc & Hu1 & Hs1).
    step post_ScratchWatchdog_undisturbed. intros u' w2 [Hu2 Hs2].
    apply post_ret. split; [exact Hc|]. split.
    - rewrite Hs2, Nat2Z.inj_succ, Hs1, Hs0. lia.
    - exact (undisturbed_trans _ _ _ Hu0 (undisturbed_trans _ _ _ Hu1 Hu2)). }
  apply post_ok in H as (c & w' & E & H). eauto.
Qed.

(** A payload of 300 bytes: five services. *)
Lemma AddReadPayloadChecksum_services_300 :
  exists c w',
    AddReadPayloadChecksum (InArray (repeat 0xFF 300) 0) 300 idle = Ok c w' /\
    0 <= c < 2 ^ 16 /\
    Z.of_nat (services w') =
    Z.of_nat (services idle) + 2 + (300 + 99) / 100 /\
    undisturbed idle w'.
Proof.
  apply (AddReadPayloadChecksum_services (InArray (repeat 0xFF 300) 0) 300 idle).
  - lia.
  - apply readable_array; [lia|]. rewrite repeat_length. lia.
Defined.

(** ** A segment that ends the frame *)

Lemma read_range_last buf start n body v :
  read_range buf start n 0 = inl (body ++ [v]) ->
  exists k, n = S k /\
    read_range buf start k 0 = inl body /\
    peek buf start (Z.of_nat k) = inl v.
Proof.
  intros H.
  pose proof (read_range_length _ _ _ _ _ H) as Hn.
  rewrite length_app in Hn. cbn [List.length] in Hn.
  exists (List.length body). split; [lia|].
  replace n with (List.length body + 1)%nat in H by lia.
  apply read_range_split in H as (l1 & l2 & E & H1 & H2).
  pose proof (read_range_length _ _ _ _ _ H1) as Hl1.
  cbn [read_range] in H2. rewrite Z.add_0_l in H2.
  destruct (peek buf start (Z.of_nat (List.length body))) as [v'|e];
    [|discriminate].
  injection H2 as <-.
  apply app_inj_tail in E as [-> ->]. auto.
Qed.

(** X19.  A segment with End: for every readable range whose bytes are
    [body] followed by a last byte [v], and whatever the line controller
    reports, [WriteMessage] returns having sent the frame-start command if
    and only if the segment includes Start, the bytes of [body] in order to
    the data port, then the command 0x0C, [v], the command 0x03 and a
    closing 0x00, and nothing else; the staging buffer is all zero
    afterwards. *)
Theorem WriteMessage_closed_segment start length segment w body v :
  has_flag segment End = true ->
  read_range (MessageBuffer w) start (Z.to_nat length) 0 = inl (body ++ [v]) ->
  exists w',
    WriteMessage start length segment w = Ok tt w' /\
    port_writes w' =
    port_writes w ++
      (if has_flag segment Start then [Wr DLC_Transmit_Command 0x14] else []) ++
      map (Wr DLC_Transmit_FIFO) body ++
      [Wr DLC_Transmit_Command 0x0C; Wr DLC_Transmit_FIFO v;
       Wr DLC_Transmit_Command 0x03; Wr DLC_Transmit_FIFO 0x00] /\
    buffer_contents w' = repeat 0 (Z.to_nat MessageBufferSize).
Proof.
  intros He Hr.
  apply read_range_last in Hr as (k & Hk & Hbody & Hv).
  pose proof (WriteMessage_caller_view start length segment w) as Hview.
  unfold WriteMessage_view in Hview. rewrite He in Hview.
  replace (Z.to_nat (length - 1 - 0)) with k in Hview by lia.
  replace (length - 1) with (Z.of_nat k) in Hview by lia.
  rewrite Hbody, Hv in Hview.
  apply caller_view_inl in Hview as (w' & E & Hb & Hp).
  exists w'. split; [exact E|]. split; [|exact Hb].
  rewrite Hp. unfold frame_head, frame_tail.
  now rewrite <- !app_assoc.
Qed.

(** Four bytes of a message staged in the buffer, as the End segment. *)
Lemma WriteMessage_closed_segment_end :
  exists w',
    WriteMessage (InMessageBuffer 4) 4 End ramp = Ok tt w' /\
    port_writes w' =
    port_writes ramp ++
      (if has_flag End Start then [Wr DLC_Transmit_Command 0x14] else []) ++
      map (Wr DLC_Transmit_FIFO) [4; 5; 6] ++
      [Wr DLC_Transmit_Command 0x0C; Wr DLC_Transmit_FIFO 7;
       Wr DLC_Transmit_Command 0x03; Wr DLC_Transmit_FIFO 0x00] /\
    buffer_contents w' = repeat 0 (Z.to_nat MessageBufferSize).
Proof.
  apply (WriteMessage_closed_segment (InMessageBuffer 4) 4 End ramp [4; 5; 6] 7);
    reflexivity.
Defined.
